(** * Quasimodular, almost-holomorphic and mock modular forms

    A shallow embedding of [weilrep/mock.py]: the three classes
    [WeilRepQuasiModularForm], [WeilRepAlmostHolomorphicModularForm] and
    [WeilRepMockModularForm], over the interface of the base class
    [WeilRepModularForm] they inherit from and compose. *)

From Stdlib Require Import ZArith QArith Qround List String Bool Arith Lia.
From Stdlib Require Import Ascii DecimalString.
From Equations Require Import Equations.
Import ListNotations.

Set Implicit Arguments.
Close Scope Q_scope.

(** ** Python outcomes *)

(** The exceptions the module raises or lets through. *)
Inductive exn : Type :=
| ValueError (msg : string)
| IndexError
| AttributeError
| TypeError
| ZeroDivisionError.

(** A call either returns a value or raises. *)
Inductive result (A : Type) : Type :=
| Ok (a : A)
| Raise (e : exn).
Arguments Ok {A} a.
Arguments Raise {A} e.

(** [return NotImplemented] is a value, not an exception. *)
Inductive returned (A : Type) : Type :=
| Value (a : A)
| NotImplemented.
Arguments Value {A} a.
Arguments NotImplemented {A}.

Definition bind {A B : Type} (m : result A) (k : A -> result B) : result B :=
  match m with
  | Ok a => k a
  | Raise e => Raise e
  end.

Declare Scope py_scope.
Delimit Scope py_scope with py.
Notation "x <- m ;; k" := (bind m (fun x => k))
  (at level 61, m at next level, right associativity) : py_scope.
Local Open Scope py_scope.

(** A list comprehension whose body may raise. *)
Fixpoint mapM {A B : Type} (f : A -> result B) (l : list A) : result (list B) :=
  match l with
  | [] => Ok []
  | x :: l' => y <- f x ;; ys <- mapM f l' ;; Ok (y :: ys)
  end.

(** A [for] loop threading a state through a body that may raise. *)
Fixpoint foldM {A S : Type} (body : S -> A -> result S) (l : list A) (s : S)
  : result S :=
  match l with
  | [] => Ok s
  | x :: l' => s' <- body s x ;; foldM body l' s'
  end.

(** [l[n]] for a non-negative index. *)
Definition item {A : Type} (l : list A) (n : nat) : result A :=
  match nth_error l n with
  | Some x => Ok x
  | None => Raise IndexError
  end.

(** [l[k]] for a Python integer: a negative index counts from the end. *)
Definition py_index {A : Type} (l : list A) (k : Z) : option nat :=
  let n := Z.of_nat (List.length l) in
  if (0 <=? k)%Z then (if (k <? n)%Z then Some (Z.to_nat k) else None)
  else (if (0 <=? k + n)%Z then Some (Z.to_nat (k + n)) else None).

Definition get_item {A : Type} (l : list A) (k : Z) : result A :=
  match py_index l k with
  | Some n => item l n
  | None => Raise IndexError
  end.

Fixpoint update {A : Type} (l : list A) (n : nat) (v : A) : list A :=
  match l, n with
  | [], _ => []
  | _ :: l', O => v :: l'
  | x :: l', S n' => x :: update l' n' v
  end.

(** [l[k] = v]. *)
Definition set_item {A : Type} (l : list A) (k : Z) (v : A) : result (list A) :=
  match py_index l k with
  | Some n => Ok (update l n v)
  | None => Raise IndexError
  end.

(** [l[-1]]. *)
Definition last_item {A : Type} (l : list A) : result A :=
  get_item l (-1)%Z.

(** [range(lo, hi)] over the integers. *)
Definition range (lo hi : Z) : list Z :=
  map (fun n => (lo + Z.of_nat n)%Z) (seq 0 (Z.to_nat (hi - lo)%Z)).

(** Index of the first element satisfying [p], or the length when there is
    none: [next(j for j, x in enumerate(l) if p x)] with its [StopIteration]
    fallback. *)
Fixpoint first_index {A : Type} (p : A -> bool) (l : list A) : nat :=
  match l with
  | [] => 0
  | x :: l' => if p x then 0 else S (first_index p l')
  end.

(** ** Component series

    A component of a Fourier expansion is a series in [q] with rational
    coefficients known up to a finite precision:
    [coeffs[0]*q^start + coeffs[1]*q^(start+1) + ... + O(q^prec)]. *)
Record series : Type := mkSeries {
  start : Z;
  coeffs : list Q;
  prec : Z
}.

(** Every stored coefficient lies below the precision. *)
Definition series_wf (f : series) : Prop :=
  (start f + Z.of_nat (List.length (coeffs f)) <= prec f)%Z.

Definition nonzeroQ (c : Q) : bool := negb (Qeq_bool c 0%Q).

(** [not f]. *)
Definition is_zero (f : series) : bool :=
  forallb (fun c => Qeq_bool c 0%Q) (coeffs f).

(** [f.valuation()]: the exponent of the first nonzero coefficient, and the
    precision for a series that is zero up to its precision. *)
Definition valuation (f : series) : Z :=
  if is_zero f then prec f
  else (start f + Z.of_nat (first_index nonzeroQ (coeffs f)))%Z.

(** [f[i]]: [None] stands for the [IndexError] of a coefficient that is not
    known. *)
Definition getitem (f : series) (i : Z) : option Q :=
  if (i <? start f)%Z then Some 0%Q
  else match nth_error (coeffs f) (Z.to_nat (i - start f)%Z) with
       | Some c => Some c
       | None => if (i <? prec f)%Z then Some 0%Q else None
       end.

(** [f[i]] at an index below the precision, where the lookup cannot fail. *)
Definition coefficient (f : series) (i : Z) : Q :=
  if (i <? start f)%Z then 0%Q
  else nth (Z.to_nat (i - start f)%Z) (coeffs f) 0%Q.

(** [O(q ** p)]. *)
Definition bigO (p : Z) : series := mkSeries 0 [] p.

(** [(q**val * R(l)).add_bigoh(p)]: the exact Laurent polynomial with
    coefficient list [l] from exponent [val] on, cut at precision [p]. *)
Definition add_bigoh (val : Z) (l : list Q) (p : Z) : series :=
  mkSeries val (firstn (Z.to_nat (p - val)%Z) l) p.

(** The local function [a] of [derivative]. *)
Definition a (offset : Q) (f : series) : series :=
  if is_zero f then bigO (prec f)
  else
    let val := valuation f in
    let prec := prec f in
    add_bigoh val
      (map (fun i => ((inject_Z i + offset) * coefficient f i)%Q) (range val prec))
      (prec - Qfloor offset)%Z.

(** ** The base class [WeilRepModularForm] *)

Definition Matrix : Type := list (list Z).

Definition Matrix_eq_dec (S1 S2 : Matrix) : {S1 = S2} + {S1 <> S2} :=
  list_eq_dec (list_eq_dec Z.eq_dec) S1 S2.

(** The lattice handle [weilrep]: opaque, with its Gram matrix and the direct
    sum [w1 + w2]. *)
Class Lattice : Type := {
  WeilRep : Type;
  wr_gram_matrix : WeilRep -> Matrix;
  wr_add : WeilRep -> WeilRep -> WeilRep
}.

(** One entry [(g, offset, f)] of a Fourier expansion. *)
Definition component : Type := (list Q * Q * series)%type.

(** What the constructor of the base class stores and its accessors return. *)
Record WeilRepModularForm `{Lattice} : Type := mkForm {
  weight : Q;
  gram_matrix : Matrix;
  fourier_expansion : list component;
  weilrep : WeilRep
}.
Arguments mkForm {_} weight gram_matrix fourier_expansion weilrep.

(** The operations of the base class that this module calls. *)
Class BaseForms `{Lattice} : Type := {
  (** [bool(x)] *)
  form_bool : WeilRepModularForm -> bool;
  (** [x + y], [x - y], [-x] *)
  form_add : WeilRepModularForm -> WeilRepModularForm -> WeilRepModularForm;
  form_sub : WeilRepModularForm -> WeilRepModularForm -> WeilRepModularForm;
  form_neg : WeilRepModularForm -> WeilRepModularForm;
  (** [c * x] and [x * c] for a rational [c] *)
  form_smul : Q -> WeilRepModularForm -> WeilRepModularForm;
  (** the tensor product [x * y] *)
  form_mul : WeilRepModularForm -> WeilRepModularForm -> WeilRepModularForm;
  (** [x / c] *)
  form_div : WeilRepModularForm -> Q -> WeilRepModularForm;
  (** [x.precision()] *)
  form_precision : WeilRepModularForm -> Z;
  (** [w.zero(k, p)] *)
  wr_zero : WeilRep -> Q -> Z -> WeilRepModularForm
}.

(** ** [WeilRepQuasiModularForm]

    An instance is a base form (the inherited attributes) that may carry the
    two private attributes [__terms] and [__depth]; [__init__] sets both or
    neither. *)
Record WeilRepQuasiModularForm `{Lattice} : Type := mkQuasi {
  q_form : WeilRepModularForm;
  q_attrs : option (list WeilRepModularForm * nat)
}.
Arguments mkQuasi {_} q_form q_attrs.

(** The right operand of a binary operator: a rational scalar or a form. *)
Inductive operand `{Lattice} : Type :=
| Scalar (c : Q)
| Form (g : WeilRepQuasiModularForm).
Arguments Scalar {_} c.
Arguments Form {_} g.

Module Quasi.
Section Methods.
Context `{BaseForms}.

(** [bool(x)] of an operand; a form inherits [__bool__] from the base class. *)
Definition truth (other : operand) : bool :=
  match other with
  | Scalar c => nonzeroQ c
  | Form g => form_bool (q_form g)
  end.

Definition __init__ (k : Q) (S : Matrix) (terms : list WeilRepModularForm)
  (weilrep : WeilRep) : result WeilRepQuasiModularForm :=
  let l := List.length terms in
  let j := first_index form_bool terms in
  last <- last_item terms ;;
  let f := fourier_expansion last in
  let self := mkForm k S f weilrep in
  let l := l - 1 in
  if j <? l then Ok (mkQuasi self (Some (skipn j terms, l - j)))
  else Ok (mkQuasi self None).

Definition depth (self : WeilRepQuasiModularForm) : nat :=
  match q_attrs self with
  | Some (_, d) => d
  | None => 0
  end.

Definition _terms (self : WeilRepQuasiModularForm) : list WeilRepModularForm :=
  match q_attrs self with
  | Some (t, _) => t
  | None => [q_form self]
  end.

Definition __add__ (self : WeilRepQuasiModularForm) (other : operand)
  : result WeilRepQuasiModularForm :=
  if negb (truth other) then Ok self
  else
    match other with
    | Scalar _ => Raise AttributeError
    | Form other =>
      let S1 := gram_matrix (q_form self) in
      let S2 := gram_matrix (q_form other) in
      if Matrix_eq_dec S1 S2 then
        if Qeq_bool (weight (q_form self)) (weight (q_form other)) then
          let d1 := depth self in
          let d2 := depth other in
          let t1 := _terms self in
          let t2 := _terms other in
          X <- (if d1 <=? d2 then
                  let j := d2 - d1 in
                  sums <- mapM (fun i => x <- item t1 i ;; y <- item t2 (i + j) ;;
                                         Ok (form_add x y)) (seq 0 (d1 + 1)) ;;
                  Ok (firstn j t2 ++ sums)
                else
                  let j := d1 - d2 in
                  sums <- mapM (fun i => x <- item t1 (i + j) ;; y <- item t2 i ;;
                                         Ok (form_add x y)) (seq 0 (d2 + 1)) ;;
                  Ok (firstn j t1 ++ sums)) ;;
          __init__ (weight (q_form self)) S1 X (weilrep (q_form self))
        else Raise (ValueError "Incompatible weights")
      else Raise (ValueError "Incompatible Gram matrices")
    end.

Definition __sub__ (self : WeilRepQuasiModularForm) (other : operand)
  : result WeilRepQuasiModularForm :=
  if negb (truth other) then Ok self
  else
    match other with
    | Scalar _ => Raise AttributeError
    | Form other =>
      let S1 := gram_matrix (q_form self) in
      let S2 := gram_matrix (q_form other) in
      if Matrix_eq_dec S1 S2 then
        if Qeq_bool (weight (q_form self)) (weight (q_form other)) then
          let d1 := depth self in
          let d2 := depth other in
          let t1 := _terms self in
          let t2 := _terms other in
          X <- (if d1 <=? d2 then
                  let j := d2 - d1 in
                  diffs <- mapM (fun i => x <- item t1 i ;; y <- item t2 (i + j) ;;
                                          Ok (form_sub x y)) (seq 0 (d1 + 1)) ;;
                  Ok (map form_neg (firstn j t2) ++ diffs)
                else
                  let j := d1 - d2 in
                  diffs <- mapM (fun i => x <- item t1 (i + j) ;; y <- item t2 i ;;
                                          Ok (form_sub x y)) (seq 0 (d2 + 1)) ;;
                  Ok (firstn j t1 ++ diffs)) ;;
          __init__ (weight (q_form self)) S1 X (weilrep (q_form self))
        else Raise (ValueError "Incompatible weights")
      else Raise (ValueError "Incompatible Gram matrices")
    end.

Definition __neg__ (self : WeilRepQuasiModularForm)
  : result WeilRepQuasiModularForm :=
  __init__ (weight (q_form self)) (gram_matrix (q_form self))
    (map form_neg (_terms self)) (weilrep (q_form self)).

(** The zero accumulators [X] of the tensor product. *)
Definition accumulators (w : WeilRep) (rs : nat) (j : Q) (p : Z)
  : list WeilRepModularForm :=
  map (fun i => wr_zero w (inject_Z (Z.of_nat i) + inject_Z (Z.of_nat i) + j)%Q p)
      (seq 0 (rs + 1)).

(** The body [X[i + j] += t1[i]*t2[j]] of the double loop. *)
Definition accumulate (t1 t2 : list WeilRepModularForm)
  (X : list WeilRepModularForm) (i j : nat) : result (list WeilRepModularForm) :=
  x <- item t1 i ;;
  y <- item t2 j ;;
  acc <- item X (i + j) ;;
  set_item X (Z.of_nat (i + j)) (form_add acc (form_mul x y)).

Definition product_terms (t1 t2 : list WeilRepModularForm) (r s : nat)
  (X : list WeilRepModularForm) : result (list WeilRepModularForm) :=
  foldM (fun X i => foldM (fun X j => accumulate t1 t2 X i j) (seq 0 (s + 1)) X)
        (seq 0 (r + 1)) X.

Definition __mul__ (self : WeilRepQuasiModularForm) (other : operand)
  : result WeilRepQuasiModularForm :=
  match other with
  | Scalar other =>
    __init__ (weight (q_form self)) (gram_matrix (q_form self))
      (map (form_smul other) (_terms self)) (weilrep (q_form self))
  | Form other =>
    let w1 := weilrep (q_form self) in
    let w2 := weilrep (q_form other) in
    let k := (weight (q_form self) + weight (q_form other))%Q in
    let w := wr_add w1 w2 in
    let t1 := _terms self in
    let t2 := _terms other in
    let r := depth self in
    let s := depth other in
    let rs := r + s in
    let j := (k - inject_Z (Z.of_nat rs) - inject_Z (Z.of_nat rs))%Q in
    let p := form_precision (q_form self) in
    X <- product_terms t1 t2 r s (accumulators w rs j p) ;;
    __init__ k (wr_gram_matrix w) X w
  end.

(** Division by a scalar; a zero divisor raises in the division of the first
    term. *)
Definition __div__ (self : WeilRepQuasiModularForm) (other : Q)
  : result WeilRepQuasiModularForm :=
  if Qeq_bool other 0%Q then Raise ZeroDivisionError
  else
    __init__ (weight (q_form self)) (gram_matrix (q_form self))
      (map (fun x => form_div x other) (_terms self)) (weilrep (q_form self)).

Equations? __pow__ (self : WeilRepQuasiModularForm) (N : Z)
  : result WeilRepQuasiModularForm by wf (Z.to_nat N) lt :=
__pow__ self N with Z.eq_dec N 1 => {
  | left _ := Ok self ;
  | right _ with Z_lt_dec 1 N => {
    | left _ :=
      let Nhalf := (N / 2)%Z in
      let lhs := __pow__ self Nhalf in
      let rhs := __pow__ self (N - Nhalf)%Z in
      x <- lhs ;; y <- rhs ;; __mul__ x (Form y) ;
    | right _ := Raise (ValueError "Invalid exponent") } }.
Proof.
- assert (0 < N / 2 < N)%Z; [ | lia ].
  split; [ apply Z.div_str_pos; lia | apply Z.div_lt; lia ].
- assert (0 < N / 2 < N)%Z; [ | lia ].
  split; [ apply Z.div_str_pos; lia | apply Z.div_lt; lia ].
Qed.

(** The weighting coefficients [f] and the final value of the loop variable
    [k] in [shift]. *)
Definition shift_loop (r : nat) : result (list Z * Z) :=
  foldM (fun '(f, k) j =>
           fk1 <- get_item f (k + 1)%Z ;;
           f' <- set_item f k (j * fk1)%Z ;;
           Ok (f', (k - 1)%Z))
        (range 1%Z (Z.of_nat r + 1)%Z)
        (repeat 1%Z (r + 1), (Z.of_nat r - 1)%Z).

Definition shift (self : WeilRepQuasiModularForm)
  : result WeilRepQuasiModularForm :=
  let r := depth self in
  fk <- shift_loop r ;;
  let '(f, k) := fk in
  let X := _terms self in
  Y <- mapM (fun '(i, y) => fi <- item f i ;; Ok (form_smul (inject_Z fi) y))
            (combine (seq 0 (List.length (removelast X))) (removelast X)) ;;
  __init__ (inject_Z (k - 2)%Z) (gram_matrix (q_form self)) Y
           (weilrep (q_form self)).

(** The local function [d] of [derivative]. *)
Definition d (S : Matrix) (w : WeilRep) (X : WeilRepModularForm)
  : WeilRepModularForm :=
  let k := weight X in
  let Y := map (fun x : component =>
                  (fst (fst x), snd (fst x), a (snd (fst x)) (snd x)))
               (fourier_expansion X) in
  mkForm (k + 2)%Q S Y w.

Definition derivative (self : WeilRepQuasiModularForm)
  : result WeilRepQuasiModularForm :=
  let t := _terms self in
  let S := gram_matrix (q_form self) in
  let w := weilrep (q_form self) in
  _ <- item (fourier_expansion (q_form self)) 0 ;;
  let r := depth self in
  let k := weight (q_form self) in
  let rk := (inject_Z (Z.of_nat r) - k)%Q in
  t0 <- item t 0 ;;
  mid <- mapM (fun j => tj <- item t j ;; tj1 <- item t (j - 1) ;;
                        Ok (form_add (form_smul (rk - inject_Z (Z.of_nat j))%Q tj)
                                     (d S w tj1)))
              (seq 1 r) ;;
  tl <- last_item t ;;
  let X := [form_smul rk t0] ++ mid ++ [d S w tl] in
  __init__ (k + 2)%Q (gram_matrix (q_form self)) X (weilrep (q_form self)).

End Methods.
End Quasi.

(** ** [WeilRepAlmostHolomorphicModularForm] *)

Record WeilRepAlmostHolomorphicModularForm `{Lattice} : Type := mkCompletion {
  ah_weight : Q;
  ah_gram_matrix : Matrix;
  ah_list : list WeilRepQuasiModularForm;
  ah_weilrep : WeilRep;
  ah_depth : nat
}.
Arguments mkCompletion {_} ah_weight ah_gram_matrix ah_list ah_weilrep ah_depth.

(** The right operand of the lazy arithmetic: a scalar, a form, or another
    completion. *)
Inductive lazy_operand `{Lattice} : Type :=
| LScalar (c : Q)
| LForm (g : WeilRepQuasiModularForm)
| LCompletion (h : WeilRepAlmostHolomorphicModularForm).
Arguments LScalar {_} c.
Arguments LForm {_} g.
Arguments LCompletion {_} h.

Module AlmostHolomorphic.
Section Methods.
Context `{BaseForms}.

Definition __init__ (k : Q) (S : Matrix) (X : list WeilRepQuasiModularForm)
  (weilrep : WeilRep) : result WeilRepAlmostHolomorphicModularForm :=
  X0 <- item X 0 ;;
  Ok (mkCompletion k S X weilrep (Quasi.depth X0)).

Definition __getitem__ (self : WeilRepAlmostHolomorphicModularForm) (n : Z)
  : result WeilRepQuasiModularForm :=
  get_item (ah_list self) n.

(** The loop of [WeilRepQuasiModularForm.completion]: the list [X] and the
    running product [j]. *)
Definition completion_loop (r : nat) (self : WeilRepQuasiModularForm)
  : result (list WeilRepQuasiModularForm * Z) :=
  foldM (fun '(X, j) i =>
           let j := (j * (i + 1))%Z in
           last <- last_item X ;;
           s <- Quasi.shift last ;;
           x <- Quasi.__div__ s (inject_Z j) ;;
           Ok (X ++ [x], j))
        (range 0 (Z.of_nat r))
        ([self], 1%Z).

(** [WeilRepQuasiModularForm.completion]; it lives here because it builds the
    completion object. *)
Definition completion (self : WeilRepQuasiModularForm)
  : result WeilRepAlmostHolomorphicModularForm :=
  let r := Quasi.depth self in
  Xj <- completion_loop r self ;;
  __init__ (weight (q_form self)) (gram_matrix (q_form self)) (fst Xj)
           (weilrep (q_form self)).

(** [bool(other)]: a completion defines neither [__bool__] nor [__len__], so
    it is always true. *)
Definition truth (other : lazy_operand) : bool :=
  match other with
  | LScalar c => nonzeroQ c
  | LForm g => form_bool (q_form g)
  | LCompletion _ => true
  end.

(** A scalar is not subscriptable; a form is taken as it is, through the
    [except AttributeError] branch. *)
Definition __add__ (self : WeilRepAlmostHolomorphicModularForm)
  (other : lazy_operand) : result WeilRepAlmostHolomorphicModularForm :=
  if negb (truth other) then Ok self
  else
    match other with
    | LCompletion other =>
      x <- __getitem__ self 0 ;; y <- __getitem__ other 0 ;;
      z <- Quasi.__add__ x (Form y) ;; completion z
    | LForm other =>
      x <- __getitem__ self 0 ;;
      z <- Quasi.__add__ x (Form other) ;; completion z
    | LScalar _ => Raise TypeError
    end.

Definition __sub__ (self : WeilRepAlmostHolomorphicModularForm)
  (other : lazy_operand) : result WeilRepAlmostHolomorphicModularForm :=
  if negb (truth other) then Ok self
  else
    match other with
    | LCompletion other =>
      x <- __getitem__ self 0 ;; y <- __getitem__ other 0 ;;
      z <- Quasi.__sub__ x (Form y) ;; completion z
    | LForm other =>
      x <- __getitem__ self 0 ;;
      z <- Quasi.__sub__ x (Form other) ;; completion z
    | LScalar _ => Raise TypeError
    end.

Definition __neg__ (self : WeilRepAlmostHolomorphicModularForm)
  : result WeilRepAlmostHolomorphicModularForm :=
  x <- __getitem__ self 0 ;; z <- Quasi.__neg__ x ;; completion z.

Definition __div__ (self : WeilRepAlmostHolomorphicModularForm) (n : Q)
  : result WeilRepAlmostHolomorphicModularForm :=
  x <- __getitem__ self 0 ;; z <- Quasi.__div__ x n ;; completion z.

Definition __pow__ (self : WeilRepAlmostHolomorphicModularForm) (n : Z)
  : result WeilRepAlmostHolomorphicModularForm :=
  x <- __getitem__ self 0 ;; z <- Quasi.__pow__ x n ;; completion z.

Definition derivative (self : WeilRepAlmostHolomorphicModularForm)
  : result WeilRepAlmostHolomorphicModularForm :=
  x <- __getitem__ self 0 ;; z <- Quasi.derivative x ;; completion z.

Definition shift (self : WeilRepAlmostHolomorphicModularForm)
  : result WeilRepAlmostHolomorphicModularForm :=
  x <- __getitem__ self 0 ;; z <- Quasi.shift x ;; completion z.

End Methods.
End AlmostHolomorphic.

(** ** [WeilRepMockModularForm] *)

Record WeilRepMockModularForm `{Lattice} : Type := mkMock {
  m_form : WeilRepModularForm;
  m_shadow : WeilRepModularForm
}.
Arguments mkMock {_} m_form m_shadow.

(** The right operand of [+] and [-]: another mock form or a plain form. *)
Inductive summand `{Lattice} : Type :=
| MockForm (x : WeilRepMockModularForm)
| PlainForm (x : WeilRepModularForm).
Arguments MockForm {_} x.
Arguments PlainForm {_} x.

(** The right operand of [*]: a rational scalar or anything else. *)
Inductive factor `{Lattice} : Type :=
| Rational (c : Q)
| NonScalar (x : summand).
Arguments Rational {_} c.
Arguments NonScalar {_} x.

(** The right operand of [/], a number accepted by the test [other in QQ]:
    a Sage rational or integer, or a Python [int].  The two kinds differ in
    what the operator [~] does to them. *)
Inductive divisor : Type :=
| SageNumber (c : Q)
| PythonInt (n : Z).

Module Mock.
Section Methods.
Context `{BaseForms}.

Definition __init__ (k : Q) (S : Matrix) (X : list component)
  (shadow : WeilRepModularForm) (weilrep : WeilRep) : WeilRepMockModularForm :=
  mkMock (mkForm k S X weilrep) shadow.

Definition shadow (self : WeilRepMockModularForm) : WeilRepModularForm :=
  m_shadow self.

(** The operand as the inherited operator of the base class sees it. *)
Definition as_form (other : summand) : WeilRepModularForm :=
  match other with
  | MockForm x => m_form x
  | PlainForm x => x
  end.

Definition __add__ (self : WeilRepMockModularForm) (other : summand)
  : WeilRepMockModularForm :=
  let f := form_add (m_form self) (as_form other) in
  let s := shadow self in
  let s := match other with
           | MockForm other => form_add s (shadow other)
           | PlainForm _ => s
           end in
  __init__ (weight (m_form self)) (gram_matrix (m_form self))
           (fourier_expansion f) s (weilrep (m_form self)).

Definition __sub__ (self : WeilRepMockModularForm) (other : summand)
  : WeilRepMockModularForm :=
  let f := form_sub (m_form self) (as_form other) in
  let s := shadow self in
  let s := match other with
           | MockForm other => form_sub s (shadow other)
           | PlainForm _ => s
           end in
  __init__ (weight (m_form self)) (gram_matrix (m_form self))
           (fourier_expansion f) s (weilrep (m_form self)).

Definition __neg__ (self : WeilRepMockModularForm) : WeilRepMockModularForm :=
  __init__ (weight (m_form self)) (gram_matrix (m_form self))
           (fourier_expansion (form_neg (m_form self)))
           (form_neg (shadow self)) (weilrep (m_form self)).

Definition __mul__ (self : WeilRepMockModularForm) (other : factor)
  : returned WeilRepMockModularForm :=
  match other with
  | Rational other =>
    let f := form_smul other (m_form self) in
    Value (__init__ (weight (m_form self)) (gram_matrix (m_form self))
                    (fourier_expansion f) (form_smul other (shadow self))
                    (weilrep (m_form self)))
  | NonScalar _ => NotImplemented
  end.

(** [~other]: the operator [__invert__] of the divisor.  On a Sage number it
    is the multiplicative inverse, which raises at 0; on a Python [int] it is
    the bitwise complement [-n - 1]. *)
Definition invert (other : divisor) : result Q :=
  match other with
  | SageNumber c =>
    if Qeq_bool c 0%Q then Raise ZeroDivisionError else Ok (/ c)%Q
  | PythonInt n => Ok (inject_Z (Z.lnot n))
  end.

(** [self.__mul__(~other)]; either kind of divisor passes the test
    [other in QQ] of [__mul__]. *)
Definition __truediv__ (self : WeilRepMockModularForm) (other : divisor)
  : result (returned WeilRepMockModularForm) :=
  c <- invert other ;;
  Ok (__mul__ self (Rational c)).

Definition derivative (self : WeilRepMockModularForm)
  : returned WeilRepMockModularForm :=
  NotImplemented.

End Methods.
End Mock.

(** ** A reference base library

    Modelled from the spec: the base modular-form library that [mock.py]
    consumes ([weight], [gram_matrix], [fourier_expansion], [precision], the
    zero-form factory and the tensor/direct-sum combinator) is not part of
    this file.  The instance below is the plain one: a lattice handle is its
    Gram matrix, forms are combined component by component, and component
    series carry the usual truncated power-series arithmetic.  It provides
    the concrete forms on which the general statements are exercised. *)
Module Reference.

(** The series with coefficient [c i] at [q^i] for [lo <= i < p]. *)
Definition tabulate (lo p : Z) (c : Z -> Q) : series :=
  mkSeries lo (map (fun i => Qred (c i)) (range lo p)) p.

Definition series_add (f g : series) : series :=
  tabulate (Z.min (start f) (start g)) (Z.min (prec f) (prec g))
           (fun i => (coefficient f i + coefficient g i)%Q).

Definition series_neg (f : series) : series :=
  mkSeries (start f) (map (fun c => Qred (- c)%Q) (coeffs f)) (prec f).

Definition series_sub (f g : series) : series :=
  series_add f (series_neg g).

Definition series_scale (c : Q) (f : series) : series :=
  mkSeries (start f) (map (fun x => Qred (c * x)%Q) (coeffs f)) (prec f).

(** The Cauchy product, known up to
    [min(prec f + start g, prec g + start f)]. *)
Definition series_mul (f g : series) : series :=
  tabulate (start f + start g)
           (Z.min (prec f + start g) (prec g + start f))
           (fun n => fold_right Qplus 0%Q
                       (map (fun i => (coefficient f i * coefficient g (n - i))%Q)
                            (range (start f) (n - start g + 1)))).

(** Direct sum of Gram matrices: the block diagonal matrix. *)
Definition direct_sum (S1 S2 : Matrix) : Matrix :=
  let n1 := List.length S1 in
  let n2 := List.length S2 in
  map (fun row => row ++ repeat 0%Z n2) S1 ++
  map (fun row => repeat 0%Z n1 ++ row) S2.

#[export] Instance lattice : Lattice := {
  WeilRep := Matrix;
  wr_gram_matrix := fun w => w;
  wr_add := direct_sum
}.

Definition zip_components (op : series -> series -> series)
  (X Y : list component) : list component :=
  map (fun xy : component * component =>
         (fst (fst (fst xy)), snd (fst (fst xy)), op (snd (fst xy)) (snd (snd xy))))
      (combine X Y).

Definition map_components (op : series -> series) (X : list component)
  : list component :=
  map (fun x : component => (fst (fst x), snd (fst x), op (snd x))) X.

Definition nonzero (x : WeilRepModularForm) : bool :=
  existsb (fun c : component => negb (is_zero (snd c))) (fourier_expansion x).

Definition add (x y : WeilRepModularForm) : WeilRepModularForm :=
  mkForm (weight x) (gram_matrix x)
         (zip_components series_add (fourier_expansion x) (fourier_expansion y))
         (weilrep x).

Definition sub (x y : WeilRepModularForm) : WeilRepModularForm :=
  mkForm (weight x) (gram_matrix x)
         (zip_components series_sub (fourier_expansion x) (fourier_expansion y))
         (weilrep x).

Definition neg (x : WeilRepModularForm) : WeilRepModularForm :=
  mkForm (weight x) (gram_matrix x)
         (map_components series_neg (fourier_expansion x)) (weilrep x).

Definition smul (c : Q) (x : WeilRepModularForm) : WeilRepModularForm :=
  mkForm (weight x) (gram_matrix x)
         (map_components (series_scale c) (fourier_expansion x)) (weilrep x).

Definition div (x : WeilRepModularForm) (c : Q) : WeilRepModularForm :=
  smul (/ c)%Q x.

(** The tensor product: one component for every pair of components. *)
Definition mul (x y : WeilRepModularForm) : WeilRepModularForm :=
  mkForm (Qred (weight x + weight y)%Q)
         (direct_sum (gram_matrix x) (gram_matrix y))
         (flat_map (fun cx : component =>
                      map (fun cy : component =>
                             (fst (fst cx) ++ fst (fst cy),
                              Qred (snd (fst cx) + snd (fst cy))%Q,
                              series_mul (snd cx) (snd cy)))
                          (fourier_expansion y))
                   (fourier_expansion x))
         (direct_sum (weilrep x) (weilrep y)).

Definition precision (x : WeilRepModularForm) : Z :=
  match fourier_expansion x with
  | [] => 0%Z
  | c :: X => fold_right Z.min (prec (snd c)) (map (fun c : component => prec (snd c)) X)
  end.

(** The zero form of a lattice of rank 0: one component [O(q^p)]. *)
Definition zero (w : Matrix) (k : Q) (p : Z) : WeilRepModularForm :=
  mkForm k w [([], 0%Q, bigO p)] w.

#[export] Instance forms : BaseForms := {
  form_bool := nonzero;
  form_add := add;
  form_sub := sub;
  form_neg := neg;
  form_smul := smul;
  form_mul := mul;
  form_div := div;
  form_precision := precision;
  wr_zero := zero
}.

(** A scalar-valued form [(), f] of the empty lattice. *)
Definition scalar_form (k : Q) (f : series) : WeilRepModularForm :=
  mkForm k [] [([], 0%Q, f)] [].

(** [1 - 24*q - 72*q^2 - 96*q^3 - 168*q^4 + O(q^5)] and the constant
    [-12 + O(q^5)] of the docstrings. *)
Definition E2 : series :=
  mkSeries 0 [1; -24 # 1; -72 # 1; -96 # 1; -168 # 1]%Q 5.
Definition minus12 : series := mkSeries 0 [-12 # 1]%Q 5.

(** The Eisenstein series of the docstrings as a quasimodular form of weight
    2 and depth 1, with terms [f_1, f_0]. *)
Definition e2 : WeilRepQuasiModularForm :=
  mkQuasi (scalar_form (2 # 1) E2)
          (Some ([scalar_form 0 minus12; scalar_form (2 # 1) E2], 1)).

(** The constant [c + O(q^2)]. *)
Definition constant (c : Q) : series := mkSeries 0 [c] 2.

(** A form of depth 3 whose four terms are the constant 1. *)
Definition depth_three : WeilRepQuasiModularForm :=
  mkQuasi (scalar_form (6 # 1) (constant 1))
          (Some ([scalar_form 0 (constant 1); scalar_form (2 # 1) (constant 1);
                  scalar_form (4 # 1) (constant 1); scalar_form (6 # 1) (constant 1)],
                 3)).

(** A form of depth 1 whose leading term [q + O(q^2)] vanishes at [q = 0]. *)
Definition cuspidal : WeilRepQuasiModularForm :=
  mkQuasi (scalar_form (14 # 1) (mkSeries 0 [1; -24 # 1]%Q 2))
          (Some ([scalar_form (12 # 1) (mkSeries 0 [0; 1]%Q 2);
                  scalar_form (14 # 1) (mkSeries 0 [1; -24 # 1]%Q 2)], 1)).

(** The zero form of weight 2 for the lattice with Gram matrix [(2)]. *)
Definition zero_rank_one : WeilRepQuasiModularForm :=
  mkQuasi (mkForm (2 # 1)%Q [[2%Z]] [([0%Q], 0%Q, bigO 5); ([(1 # 2)%Q], (-1 # 4)%Q, bigO 5)]
                  [[2%Z]])
          None.

(** A nonzero form of weight 2 for the same lattice. *)
Definition rank_one : WeilRepQuasiModularForm :=
  mkQuasi (mkForm (2 # 1)%Q [[2%Z]]
                  [([0%Q], 0%Q, mkSeries 0 [1%Q] 5);
                   ([(1 # 2)%Q], (-1 # 4)%Q, mkSeries 1 [(2 # 1)%Q] 5)]
                  [[2%Z]])
          None.

(** The completion of [e2]: [f_0 = E2] and [f_1 = -12]. *)
Definition e2_completed : WeilRepAlmostHolomorphicModularForm :=
  mkCompletion (2 # 1)%Q [] [e2; mkQuasi (scalar_form (-3 # 1) minus12) None] [] 1.

(** The constant [1 + O(q^5)] as a form of weight 0 and depth 0. *)
Definition one : WeilRepQuasiModularForm :=
  mkQuasi (scalar_form 0 (mkSeries 0 [1%Q] 5)) None.

(** A mock form of weight 1/2 with a shadow of weight 3/2. *)
Definition mock_example : WeilRepMockModularForm :=
  mkMock (scalar_form (1 # 2) (mkSeries 0 [1; 2 # 1]%Q 2))
         (scalar_form (3 # 2) (mkSeries 0 [0; 1]%Q 2)).

(** The coefficient of [q^0] in the first component of a form. *)
Definition constant_term (g : WeilRepQuasiModularForm) : Q :=
  match fourier_expansion (q_form g) with
  | c :: _ => coefficient (snd c) 0
  | [] => 0%Q
  end.

(** The constant [1 + O(q^5)] as a form of weight 2 and depth 0. *)
Definition plain_two : WeilRepQuasiModularForm :=
  mkQuasi (scalar_form (2 # 1) (mkSeries 0 [1%Q] 5)) None.

(** The zero form [O(q^5)] of weight 4. *)
Definition zero_four : WeilRepModularForm := scalar_form (4 # 1) (bigO 5).

(** A form of weight 2 and depth 1 with a pole at the cusp: the terms are
    [2q + O(q^4)] of weight 0 and [q^-1 + O(q^4)] of weight 2. *)
Definition polar : WeilRepQuasiModularForm :=
  mkQuasi (scalar_form (2 # 1) (mkSeries (-1) [1; 0; 0; 0; 0]%Q 4))
          (Some ([scalar_form 0 (mkSeries 1 [2 # 1; 0; 0]%Q 4);
                  scalar_form (2 # 1) (mkSeries (-1) [1; 0; 0; 0; 0]%Q 4)], 1)).

End Reference.

(** ** Vocabulary of the statements *)
Section Vocabulary.
Context `{BaseForms}.

(** What [__init__] establishes: the private attributes are absent, or the
    depth is positive, there are [depth + 1] terms, and the leading term is
    nonzero. *)
Definition well_formed (f : WeilRepQuasiModularForm) : Prop :=
  match q_attrs f with
  | None => True
  | Some (t, r) =>
    1 <= r /\ List.length t = r + 1 /\
    match t with
    | t0 :: _ => form_bool t0 = true
    | [] => False
    end
  end.

(** The depth the constructor computes from a list of [l] terms whose first
    nonzero entry has index [j]. *)
Definition trimmed_depth (terms : list WeilRepModularForm) : nat :=
  let l := List.length terms - 1 in
  let j := first_index form_bool terms in
  if j <? l then l - j else 0.

(** The pairs [(i, j)] in the order the double loop of [__mul__] visits
    them. *)
Definition loop_pairs (r s : nat) : list (nat * nat) :=
  list_prod (seq 0 (r + 1)) (seq 0 (s + 1)).

(** An accumulator that starts as [x0], after the pairs [ps] have been
    visited: [x0] plus, in that order, every product [t1[i]*t2[j]] with
    [i + j = n].  [z] is the default of the list lookups. *)
Definition accumulated (t1 t2 : list WeilRepModularForm) (z : WeilRepModularForm)
  (ps : list (nat * nat)) (n : nat) (x0 : WeilRepModularForm) : WeilRepModularForm :=
  fold_left
    (fun acc ij => form_add acc (form_mul (nth (fst ij) t1 z) (nth (snd ij) t2 z)))
    (filter (fun ij => fst ij + snd ij =? n) ps)
    x0.

(** [n!] as a Python integer. *)
Definition factorial (n : nat) : Z := Z.of_nat (fact n).

(** The state of the loop after [m] iterations: [m + 1] entries, the first
    one [f], each later one the shift of its predecessor divided by the
    running product, which is [i!] at entry [i]; the last entry has depth
    [r - m]. *)
Definition completion_invariant (f : WeilRepQuasiModularForm) (r m : nat)
  (X : list WeilRepQuasiModularForm) : Prop :=
  List.length X = m + 1 /\
  nth_error X 0 = Some f /\
  (exists x, nth_error X m = Some x /\ well_formed x /\ Quasi.depth x = r - m) /\
  forall i, 1 <= i <= m ->
    exists prev s cur,
      nth_error X (i - 1) = Some prev /\ Quasi.shift prev = Ok s /\
      Quasi.__div__ s (inject_Z (factorial i)) = Ok cur /\
      nth_error X i = Some cur.

End Vocabulary.

(** ** Vocabulary of the further statements *)
Section Alignment.
Context `{BaseForms}.

(** The entry of index [i] of a term list [t] of depth [d], read as a list
    of depth [m >= d] that has [m - d] zeros in front; [None] is one of
    these zeros. *)
Definition padded (t : list WeilRepModularForm) (d m i : nat)
  : option WeilRepModularForm :=
  if i <? m - d then None else nth_error t (i - (m - d)).

(** An entry of a sum: both terms added, or the only one there is. *)
Definition sum_entry (x y : option WeilRepModularForm)
  : option WeilRepModularForm :=
  match x, y with
  | Some x, Some y => Some (form_add x y)
  | Some x, None => Some x
  | None, Some y => Some y
  | None, None => None
  end.

(** An entry of a difference: a term of the right operand alone is
    negated. *)
Definition difference_entry (x y : option WeilRepModularForm)
  : option WeilRepModularForm :=
  match x, y with
  | Some x, Some y => Some (form_sub x y)
  | Some x, None => Some x
  | None, Some y => Some (form_neg y)
  | None, None => None
  end.

End Alignment.

(** ** The string form of a completion *)
Section Display.
Context `{Lattice}.

(** [str(x)] of a form comes from the base class. *)
Variable str : WeilRepQuasiModularForm -> string.

(** ['%d' % n] for a non-negative [n]. *)
Definition percent_d (n : nat) : string :=
  NilEmpty.string_of_uint (Nat.to_uint n).

Definition newline : string := String (ascii_of_nat 10) EmptyString.

(** [c * n] for a one-character string. *)
Fixpoint times (c : string) (n : nat) : string :=
  match n with
  | O => EmptyString
  | Datatypes.S n' => (c ++ times c n')%string
  end.

(** [' + f_%d * (4 pi y)^(-%d)' % (i, i)]. *)
Definition summand_label (i : nat) : string :=
  (" + f_" ++ percent_d i ++ " * (4 pi y)^(-" ++ percent_d i ++ ")")%string.

(** [h = '\n' + '-'*80]. *)
Definition rule : string := (newline ++ times "-" 80)%string.

(** ['\nf_%d =\n%s' % (i, str(x))]. *)
Definition entry_text (i : nat) (x : WeilRepQuasiModularForm) : string :=
  (newline ++ "f_" ++ percent_d i ++ " =" ++ newline ++ str x)%string.

(** The body of the loop over [enumerate(X)]. *)
Definition repr_step (st : string * string) (ix : nat * WeilRepQuasiModularForm)
  : string * string :=
  let '(s, t) := st in
  let '(i, x) := ix in
  if 1 <=? i
  then ((s ++ summand_label i)%string, ((t ++ rule) ++ entry_text i x)%string)
  else (s, t).

(** [', where:\nf_0 =\n']. *)
Definition where_line : string :=
  (", where:" ++ newline ++ "f_0 =" ++ newline)%string.

(** [__repr__], with the attribute [__string] as an explicit cache: the
    result is the string and the cache after the call. *)
Definition __repr__ (cache : option string)
  (self : WeilRepAlmostHolomorphicModularForm)
  : result (string * option string) :=
  match cache with
  | Some x => Ok (x, cache)
  | None =>
    let X := ah_list self in
    let s := "Almost holomorphic modular form f_0"%string in
    X0 <- item X 0 ;;
    let t := str X0 in
    let st := fold_left repr_step (combine (seq 0 (List.length X)) X) (s, t) in
    let x := ((fst st ++ where_line) ++ snd st)%string in
    Ok (x, Some x)
  end.

(** A list of strings, joined. *)
Definition joined (l : list string) : string :=
  fold_right append EmptyString l.

End Display.

(** * Properties *)

Unset Implicit Arguments.

(** ** Lists, loops and Python indexing *)
Section Loops.
Context {A B : Type}.

Lemma mapM_ok (f : A -> result B) (g : A -> B) (l : list A) :
  (forall x, In x l -> f x = Ok (g x)) -> mapM f l = Ok (map g l).
Proof.
induction l as [| x l IH]; intros Hf; simpl.
- reflexivity.
- rewrite (Hf x (or_introl eq_refl)). simpl.
  rewrite IH by (intros y Hy; apply Hf; right; exact Hy).
  reflexivity.
Qed.

Lemma item_nth (l : list A) (n : nat) (dflt : A) :
  n < List.length l -> item l n = Ok (nth n l dflt).
Proof.
intros Hn. unfold item.
rewrite (nth_error_nth' l dflt Hn). reflexivity.
Qed.

Lemma item_Some (l : list A) (n : nat) (x : A) :
  nth_error l n = Some x -> item l n = Ok x.
Proof. intros E. unfold item. rewrite E. reflexivity. Qed.

Lemma get_item_nat (l : list A) (n : nat) :
  n < List.length l -> get_item l (Z.of_nat n) = item l n.
Proof.
intros Hn. unfold get_item, py_index.
destruct (Z.leb_spec 0 (Z.of_nat n)); [ | lia ].
destruct (Z.ltb_spec (Z.of_nat n) (Z.of_nat (List.length l))); [ | lia ].
rewrite Nat2Z.id. reflexivity.
Qed.

Lemma set_item_nat (l : list A) (n : nat) (v : A) :
  n < List.length l -> set_item l (Z.of_nat n) v = Ok (update l n v).
Proof.
intros Hn. unfold set_item, py_index.
destruct (Z.leb_spec 0 (Z.of_nat n)); [ | lia ].
destruct (Z.ltb_spec (Z.of_nat n) (Z.of_nat (List.length l))); [ | lia ].
rewrite Nat2Z.id. reflexivity.
Qed.

Lemma last_item_nth (l : list A) (dflt : A) :
  l <> [] -> last_item l = Ok (nth (List.length l - 1) l dflt).
Proof.
intros Hl. unfold last_item, get_item, py_index.
assert (0 < List.length l) by (destruct l; [ congruence | simpl; lia ]).
destruct (Z.leb_spec 0 (-1)); [ lia | ].
destruct (Z.leb_spec 0 (-1 + Z.of_nat (List.length l))); [ | lia ].
replace (Z.to_nat (-1 + Z.of_nat (List.length l))) with (List.length l - 1) by lia.
apply item_nth. lia.
Qed.

Lemma last_item_nil : last_item (@nil A) = Raise IndexError.
Proof. reflexivity. Qed.

Lemma update_length (l : list A) (n : nat) (v : A) :
  List.length (update l n v) = List.length l.
Proof.
revert n; induction l as [| x l IH]; intros [| n]; simpl; auto.
Qed.

Lemma nth_update (l : list A) (n m : nat) (v dflt : A) :
  n < List.length l ->
  nth m (update l n v) dflt = if m =? n then v else nth m l dflt.
Proof.
revert n m; induction l as [| x l IH]; intros n m Hn; simpl in Hn; [ lia | ].
destruct n as [| n], m as [| m]; simpl; auto.
apply IH. lia.
Qed.

Lemma first_index_le (p : A -> bool) (l : list A) :
  first_index p l <= List.length l.
Proof.
induction l as [| x l IH]; simpl; [ lia | ].
destruct (p x); lia.
Qed.

Lemma first_index_head (p : A -> bool) (x : A) (l : list A) :
  p x = true -> first_index p (x :: l) = 0.
Proof. intros E; simpl; rewrite E; reflexivity. Qed.

Lemma first_index_skip (p : A -> bool) (x : A) (l : list A) :
  p x = false -> first_index p (x :: l) = S (first_index p l).
Proof. intros E; simpl; rewrite E; reflexivity. Qed.

(** The element at the first index, when there is one, satisfies [p]. *)
Lemma first_index_found (p : A -> bool) (l : list A) (dflt : A) :
  first_index p l < List.length l -> p (nth (first_index p l) l dflt) = true.
Proof.
induction l as [| x l IH]; simpl; [ lia | ].
destruct (p x) eqn:E; [ intros _; exact E | ].
intros Hlt. apply IH. lia.
Qed.

End Loops.

(** ** The constructor *)
Section Constructor.
Context `{BaseForms}.

Lemma skipn_nth_cons {A : Type} (l : list A) (j : nat) (dflt : A) :
  j < List.length l -> skipn j l = nth j l dflt :: skipn (S j) l.
Proof.
revert j; induction l as [| x l IH]; intros j Hj; simpl in Hj; [ lia | ].
destruct j as [| j]; [ reflexivity | ].
simpl. apply IH. lia.
Qed.

Lemma init_ok (k : Q) (S : Matrix) (terms : list WeilRepModularForm)
  (w : WeilRep) :
  terms <> [] ->
  exists f, Quasi.__init__ k S terms w = Ok f /\
            weight (q_form f) = k /\ gram_matrix (q_form f) = S /\
            weilrep (q_form f) = w /\
            Quasi.depth f = trimmed_depth terms /\
            well_formed f.
Proof.
intros Hne. destruct terms as [| t0 rest] eqn:Et; [ congruence | ].
rewrite <- Et in *. unfold Quasi.__init__, trimmed_depth.
rewrite (last_item_nth terms t0 Hne). cbn [bind].
destruct (first_index form_bool terms <? List.length terms - 1) eqn:Hj.
- eexists; repeat split; try reflexivity.
  all: apply Nat.ltb_lt in Hj.
  + lia.
  + rewrite length_skipn; lia.
  + rewrite (@skipn_nth_cons _ terms _ t0) by lia.
    apply first_index_found. lia.
- eexists; repeat split; try reflexivity.
Qed.

Lemma init_nil (k : Q) (S : Matrix) (w : WeilRep) :
  Quasi.__init__ k S [] w = Raise IndexError.
Proof. reflexivity. Qed.

Lemma trimmed_depth_le (terms : list WeilRepModularForm) :
  trimmed_depth terms <= List.length terms - 1.
Proof.
unfold trimmed_depth.
destruct (first_index form_bool terms <? List.length terms - 1); lia.
Qed.

(** A nonzero leading term is kept, so nothing is trimmed. *)
Lemma trimmed_depth_leading (t0 : WeilRepModularForm)
  (rest : list WeilRepModularForm) :
  form_bool t0 = true -> trimmed_depth (t0 :: rest) = List.length rest.
Proof.
intros E. unfold trimmed_depth. rewrite (first_index_head _ _ _ E).
cbn [List.length].
replace (S (List.length rest) - 1) with (List.length rest) by lia.
destruct (0 <? List.length rest) eqn:E0; [ lia | apply Nat.ltb_ge in E0; lia ].
Qed.

(** A zero leading term is trimmed. *)
Lemma trimmed_depth_zero_leading (t0 : WeilRepModularForm)
  (rest : list WeilRepModularForm) :
  form_bool t0 = false -> trimmed_depth (t0 :: rest) <= List.length rest - 1.
Proof.
intros E. unfold trimmed_depth. rewrite (first_index_skip _ _ _ E).
cbn [List.length].
replace (S (List.length rest) - 1) with (List.length rest) by lia.
destruct (S (first_index form_bool rest) <? List.length rest) eqn:Hj; lia.
Qed.

Lemma well_formed_terms_length (f : WeilRepQuasiModularForm) :
  well_formed f -> List.length (Quasi._terms f) = Quasi.depth f + 1.
Proof.
unfold well_formed, Quasi._terms, Quasi.depth.
destruct (q_attrs f) as [[t r] |]; [ intros (_ & Hl & _); exact Hl | reflexivity ].
Qed.

Lemma well_formed_leading (f : WeilRepQuasiModularForm) :
  well_formed f -> 1 <= Quasi.depth f ->
  exists t0 rest, Quasi._terms f = t0 :: rest /\ form_bool t0 = true /\
                  List.length rest = Quasi.depth f.
Proof.
unfold well_formed, Quasi._terms, Quasi.depth.
destruct (q_attrs f) as [[t r] |]; [ | lia ].
intros (_ & Hl & Ht) _. destruct t as [| t0 rest]; [ contradiction | ].
exists t0, rest. simpl in Hl. repeat split; [ exact Ht | lia ].
Qed.

End Constructor.

(** ** [derivative] *)
Section Derivative.
Context `{BaseForms}.

Lemma nth_error_map_seq {A : Type} (g : nat -> A) (a n i : nat) :
  i < n -> nth_error (map g (seq a n)) i = Some (g (a + i)).
Proof.
intros Hi. rewrite nth_error_map.
rewrite (nth_error_nth' (seq a n) 0) by (rewrite length_seq; exact Hi).
rewrite seq_nth by exact Hi. reflexivity.
Qed.

Lemma nth_map_seq {A : Type} (g : nat -> A) (a n i : nat) (dflt : A) :
  i < n -> nth i (map g (seq a n)) dflt = g (a + i).
Proof.
intros Hi. apply nth_error_nth. apply nth_error_map_seq. exact Hi.
Qed.

(** The list [X] that [derivative] hands to the constructor, for terms [t]
    of a form of depth [r] and weight [k]. *)
Lemma derivative_unfold (f : WeilRepQuasiModularForm) (t0 : WeilRepModularForm) :
  well_formed f -> fourier_expansion (q_form f) <> [] ->
  let r := Quasi.depth f in
  let k := weight (q_form f) in
  let t := Quasi._terms f in
  let S := gram_matrix (q_form f) in
  let w := weilrep (q_form f) in
  let rk := (inject_Z (Z.of_nat r) - k)%Q in
  Quasi.derivative f =
  Quasi.__init__ (k + 2)%Q S
    ([form_smul rk (nth 0 t t0)] ++
     map (fun j => form_add (form_smul (rk - inject_Z (Z.of_nat j))%Q (nth j t t0))
                            (Quasi.d S w (nth (j - 1) t t0)))
         (seq 1 r) ++
     [Quasi.d S w (nth r t t0)])
    w.
Proof.
intros Hwf Hfe r k t S w rk.
pose proof (well_formed_terms_length f Hwf) as Hlen. fold t r in Hlen.
unfold Quasi.derivative. fold t r k S w rk.
destruct (fourier_expansion (q_form f)) as [| c0 cs] eqn:Efe; [ congruence | ].
cbn [item nth_error bind].
rewrite (item_nth t _ t0) by lia. cbn [bind].
rewrite (@mapM_ok _ _ _
  (fun j => form_add (form_smul (rk - inject_Z (Z.of_nat j))%Q (nth j t t0))
                     (Quasi.d S w (nth (j - 1) t t0)))).
2:{ intros j Hj. apply in_seq in Hj.
    rewrite (item_nth t _ t0) by lia. cbn [bind].
    rewrite (item_nth t _ t0) by lia. reflexivity. }
cbn [bind].
rewrite (last_item_nth t t0) by (intros E; rewrite E in Hlen; simpl in Hlen; lia).
cbn [bind]. replace (List.length t - 1) with r by lia.
reflexivity.
Qed.

(** C1. For a form of depth [r], weight [k] and terms [t[0..r]],
    [derivative] returns the form of weight [k + 2] that the constructor
    builds from the list [X] of [r + 2] terms with
    [X[0] = (r - k) * t[0]],
    [X[j] = (r - k - j) * t[j] + D(t[j-1])] for [1 <= j <= r], and
    [X[r+1] = D(t[r])], where [D] applies [a] to every component series and
    raises the weight by 2. *)
Theorem derivative_recurrence (f : WeilRepQuasiModularForm) :
  well_formed f -> fourier_expansion (q_form f) <> [] ->
  let r := Quasi.depth f in
  let k := weight (q_form f) in
  let t := Quasi._terms f in
  let S := gram_matrix (q_form f) in
  let w := weilrep (q_form f) in
  let D := Quasi.d S w in
  exists X g,
    Quasi.derivative f = Ok g /\
    Quasi.__init__ (k + 2)%Q S X w = Ok g /\
    weight (q_form g) = (k + 2)%Q /\
    List.length X = r + 2 /\
    (exists t0, nth_error t 0 = Some t0 /\
       nth_error X 0 = Some (form_smul (inject_Z (Z.of_nat r) - k)%Q t0)) /\
    (forall j, 1 <= j <= r ->
       exists tj tj1, nth_error t j = Some tj /\ nth_error t (j - 1) = Some tj1 /\
         nth_error X j =
         Some (form_add
                 (form_smul (inject_Z (Z.of_nat r) - k - inject_Z (Z.of_nat j))%Q tj)
                 (D tj1))) /\
    (exists tr, nth_error t r = Some tr /\ nth_error X (r + 1) = Some (D tr)) /\
    (forall x, weight (D x) = (weight x + 2)%Q /\
       fourier_expansion (D x) =
       map (fun c : component => (fst (fst c), snd (fst c), a (snd (fst c)) (snd c)))
           (fourier_expansion x)).
Proof.
intros Hwf Hfe r k t S w D.
pose proof (well_formed_terms_length f Hwf) as Hlen. fold t r in Hlen.
destruct t as [| t0 rest] eqn:Et; [ simpl in Hlen; lia | ]. rewrite <- Et in *.
pose proof (derivative_unfold f t0 Hwf Hfe) as Hd. cbv zeta in Hd.
fold t r k S w D in Hd.
match type of Hd with _ = Quasi.__init__ _ _ ?l _ => set (X := l) in * end.
destruct (@init_ok _ _ (k + 2)%Q S X w) as (g & Hg & Hw & _);
  [ unfold X; discriminate | ].
exists X, g. rewrite Hd.
split; [ exact Hg | ]. split; [ exact Hg | ]. split; [ exact Hw | ].
split; [ unfold X; rewrite !length_app, length_map, length_seq; simpl; lia | ].
split; [ | split; [ | split ] ].
- exists (nth 0 t t0). split; [ apply nth_error_nth'; lia | reflexivity ].
- intros j Hj. exists (nth j t t0), (nth (j - 1) t t0).
  split; [ apply nth_error_nth'; lia | ].
  split; [ apply nth_error_nth'; lia | ].
  unfold X. destruct j as [| j]; [ lia | ].
  cbn [app nth_error].
  rewrite nth_error_app1 by (rewrite length_map, length_seq; lia).
  rewrite nth_error_map_seq by lia. reflexivity.
- exists (nth r t t0). split; [ apply nth_error_nth'; lia | ].
  unfold X. rewrite Nat.add_1_r. cbn [app nth_error].
  rewrite nth_error_app2 by (rewrite length_map, length_seq; lia).
  rewrite length_map, length_seq, Nat.sub_diag. reflexivity.
- intros x. split; reflexivity.
Qed.

End Derivative.

(** ** [shift] *)
Section Shift.
Context `{BaseForms}.

Lemma factorial_succ (m : nat) :
  factorial (m + 1) = ((1 + Z.of_nat m) * factorial m)%Z.
Proof.
unfold factorial. rewrite Nat.add_1_r.
change (fact (Datatypes.S m)) with (Datatypes.S m * fact m).
rewrite Nat2Z.inj_mul. lia.
Qed.

Lemma factorial_pos (m : nat) : (0 < factorial m)%Z.
Proof. unfold factorial. pose proof (lt_O_fact m). lia. Qed.

(** The array [f] after the iterations [j = 1..m] of the loop. *)
Lemma shift_loop_from (r m n : nat) :
  m + n = r ->
  foldM (fun '(f, k) j =>
           fk1 <- get_item f (k + 1)%Z ;;
           f' <- set_item f k (j * fk1)%Z ;;
           Ok (f', (k - 1)%Z))
        (map (fun x => (1 + Z.of_nat x)%Z) (seq m n))
        (map (fun i => if i <? r - m then 1%Z else factorial (r - i)) (seq 0 (r + 1)),
         (Z.of_nat r - 1 - Z.of_nat m)%Z)
  = Ok (map (fun i => factorial (r - i)) (seq 0 (r + 1)), (-1)%Z).
Proof.
revert m; induction n as [| n IH]; intros m Hmn.
- cbn [seq map foldM]. replace m with r by lia.
  f_equal. f_equal; [ | lia ].
  apply map_ext_in. intros i _. rewrite Nat.sub_diag. reflexivity.
- cbn [seq map foldM].
  replace (Z.of_nat r - 1 - Z.of_nat m + 1)%Z with (Z.of_nat (r - m)) by lia.
  rewrite get_item_nat by (rewrite length_map, length_seq; lia).
  rewrite (item_Some _ _ _ (nth_error_map_seq _ 0 (r + 1) (r - m) ltac:(lia))).
  cbn [bind]. rewrite Nat.ltb_irrefl.
  replace (Z.of_nat r - 1 - Z.of_nat m)%Z with (Z.of_nat (r - 1 - m)) by lia.
  rewrite set_item_nat by (rewrite length_map, length_seq; lia).
  cbn [bind].
  replace (Z.of_nat (r - 1 - m) - 1)%Z
    with (Z.of_nat r - 1 - Z.of_nat (Datatypes.S m))%Z by lia.
  rewrite <- (IH (Datatypes.S m)) by lia.
  f_equal. f_equal.
  apply (nth_ext _ _ 0%Z 0%Z).
  + rewrite update_length, !length_map. reflexivity.
  + intros i Hi. rewrite update_length, length_map, length_seq in Hi.
    rewrite nth_update by (rewrite length_map, length_seq; lia).
    rewrite !nth_map_seq by lia. cbn [Nat.add].
    destruct (Nat.eqb_spec i (r - 1 - m)) as [-> | Hne].
    * destruct (Nat.ltb_spec (r - 1 - m) (r - Datatypes.S m)); [ lia | ].
      replace (r - (r - m)) with m by lia.
      replace (r - (r - 1 - m)) with (m + 1) by lia.
      rewrite factorial_succ. reflexivity.
    * destruct (Nat.ltb_spec i (r - m)), (Nat.ltb_spec i (r - Datatypes.S m));
        try reflexivity; lia.
Qed.

(** The loop of [shift] leaves [f[i] = (r - i)!] and [k = -1]. *)
Lemma shift_loop_spec (r : nat) :
  Quasi.shift_loop r =
  Ok (map (fun i => factorial (r - i)) (seq 0 (r + 1)), (-1)%Z).
Proof.
unfold Quasi.shift_loop, range.
replace (Z.to_nat (Z.of_nat r + 1 - 1)) with r by lia.
rewrite <- (shift_loop_from r 0 r) by lia.
f_equal. rewrite Nat.sub_0_r, Z.sub_0_r.
f_equal.
apply (nth_ext _ _ 1%Z 1%Z).
- rewrite repeat_length, length_map, length_seq. reflexivity.
- intros i Hi. rewrite repeat_length in Hi. rewrite nth_repeat.
  rewrite nth_map_seq by lia. cbn [Nat.add].
  destruct (Nat.ltb_spec i r); [ reflexivity | ].
  replace (r - i) with 0 by lia. reflexivity.
Qed.

Lemma inject_Z_nonzero (z : Z) : z <> 0%Z -> ~ (inject_Z z == 0)%Q.
Proof.
intros Hz E. apply Hz. unfold Qeq, inject_Z in E. simpl in E. lia.
Qed.

Lemma nth_error_scaled {A B : Type} (g : nat * A -> B) (l : list A)
  (n i : nat) (dflt : A) :
  i < n -> n <= List.length l ->
  nth_error (map g (combine (seq 0 n) (firstn n l))) i = Some (g (i, nth i l dflt)).
Proof.
intros Hi Hn.
assert (Hlen : List.length (combine (seq 0 n) (firstn n l)) = n).
{ rewrite length_combine, length_seq, length_firstn. lia. }
rewrite nth_error_map.
rewrite (nth_error_nth' _ (0, dflt)) by lia.
rewrite combine_nth by (rewrite length_seq, length_firstn; lia).
rewrite seq_nth by lia. rewrite nth_firstn.
destruct (Nat.ltb_spec i n); [ reflexivity | lia ].
Qed.

(** What [shift] hands to the constructor when there is a term to drop. *)
Lemma shift_unfold (f : WeilRepQuasiModularForm) :
  well_formed f ->
  let r := Quasi.depth f in
  let t := Quasi._terms f in
  Quasi.shift f =
  Quasi.__init__ (inject_Z (-3)) (gram_matrix (q_form f))
    (map (fun iy : nat * WeilRepModularForm =>
            form_smul (inject_Z (factorial (r - fst iy))) (snd iy))
         (combine (seq 0 r) (firstn r t)))
    (weilrep (q_form f)).
Proof.
intros Hwf r t.
pose proof (well_formed_terms_length f Hwf) as Hlen. fold t r in Hlen.
unfold Quasi.shift. fold r t. rewrite shift_loop_spec. cbn [bind].
rewrite removelast_firstn_len, Hlen.
replace (Nat.pred (r + 1)) with r by lia.
rewrite length_firstn, Hlen. replace (Nat.min r (r + 1)) with r by lia.
rewrite (mapM_ok _ (fun iy : nat * WeilRepModularForm =>
            form_smul (inject_Z (factorial (r - fst iy))) (snd iy))).
- reflexivity.
- intros [i y] Hin. apply in_combine_l in Hin. apply in_seq in Hin.
  rewrite (item_Some _ _ _ (nth_error_map_seq _ 0 (r + 1) i ltac:(lia))).
  reflexivity.
Qed.

(** [shift] step by step: the list it builds, and the form the constructor
    returns for it. *)
Lemma shift_spec (f : WeilRepQuasiModularForm) :
  (forall c x, ~ (c == 0)%Q -> form_bool (form_smul c x) = form_bool x) ->
  well_formed f ->
  let r := Quasi.depth f in
  let t := Quasi._terms f in
  (r = 0 -> Quasi.shift f = Raise IndexError) /\
  (1 <= r ->
   exists Y g,
     Quasi.shift f = Ok g /\
     Quasi.__init__ (inject_Z (-3)) (gram_matrix (q_form f)) Y
                    (weilrep (q_form f)) = Ok g /\
     weight (q_form g) = inject_Z (-3) /\
     Quasi.depth g = r - 1 /\
     well_formed g /\
     List.length Y = r /\
     forall i, i < r ->
       exists ti, nth_error t i = Some ti /\
         nth_error Y i = Some (form_smul (inject_Z (factorial (r - i))) ti)).
Proof.
intros Hsmul Hwf r t.
pose proof (well_formed_terms_length f Hwf) as Hlen. fold t r in Hlen.
pose proof (shift_unfold f Hwf) as Hs. cbv zeta in Hs. fold r t in Hs.
split.
- intros Hr. rewrite Hs, Hr. reflexivity.
- intros Hr.
  destruct (well_formed_leading f Hwf Hr) as (t0 & rest & Et & Ht0 & Hrest).
  fold t in Et. fold r in Hrest.
  match type of Hs with _ = Quasi.__init__ _ _ ?l _ => set (Y := l) in * end.
  assert (HY : forall i, i < r ->
            nth_error Y i = Some (form_smul (inject_Z (factorial (r - i))) (nth i t t0))).
  { intros i Hi. unfold Y. rewrite (nth_error_scaled _ t r i t0) by lia.
    reflexivity. }
  assert (HlenY : List.length Y = r).
  { unfold Y. rewrite length_map, length_combine, length_seq, length_firstn. lia. }
  destruct Y as [| y0 Yrest] eqn:EY; [ simpl in HlenY; lia | ].
  destruct (init_ok (inject_Z (-3)) (gram_matrix (q_form f)) (y0 :: Yrest)
                    (weilrep (q_form f)))
    as (g & Hg & Hw & _ & _ & Hd & Hwfg); [ discriminate | ].
  exists (y0 :: Yrest), g. rewrite Hs.
  split; [ exact Hg | ]. split; [ exact Hg | ]. split; [ exact Hw | ].
  split; [ | split; [ exact Hwfg | split; [ exact HlenY | ] ] ].
  + rewrite Hd. rewrite trimmed_depth_leading; [ simpl in HlenY; lia | ].
    specialize (HY 0 ltac:(lia)). cbn [nth_error] in HY. injection HY as ->.
    rewrite Hsmul.
    * rewrite Et. exact Ht0.
    * apply inject_Z_nonzero. pose proof (factorial_pos (r - 0)). lia.
  + intros i Hi. exists (nth i t t0).
    split; [ apply nth_error_nth'; lia | apply HY; exact Hi ].
Qed.

(** C2 (as the code has it). [shift] of a form of depth [r >= 1] with terms
    [t[0..r]] drops [t[r]], scales every [t[i]] with [i < r] by [(r - i)!]
    and calls the constructor on these [r] terms with the weight [k - 2],
    where [k] is the loop variable after the loop, that is [-1]: the weight
    is [-3] whatever [r] is.  The result has depth [r - 1].  At depth 0
    nothing is left for the constructor, which raises. *)
Theorem shift_terms (f : WeilRepQuasiModularForm) :
  (forall c x, ~ (c == 0)%Q -> form_bool (form_smul c x) = form_bool x) ->
  well_formed f ->
  let r := Quasi.depth f in
  let t := Quasi._terms f in
  (r = 0 -> Quasi.shift f = Raise IndexError) /\
  (1 <= r ->
   exists Y g,
     Quasi.shift f = Ok g /\
     Quasi.__init__ (inject_Z (-3)) (gram_matrix (q_form f)) Y
                    (weilrep (q_form f)) = Ok g /\
     weight (q_form g) = inject_Z (-3) /\
     Quasi.depth g = r - 1 /\
     List.length Y = r /\
     forall i, i < r ->
       exists ti, nth_error t i = Some ti /\
         nth_error Y i = Some (form_smul (inject_Z (factorial (r - i))) ti)).
Proof.
intros Hsmul Hwf r t.
destruct (shift_spec f Hsmul Hwf) as [Hzero Hpos]. fold r t in Hzero, Hpos.
split; [ exact Hzero | ].
intros Hr. destruct (Hpos Hr) as (Y & g & Hs & Hi & Hw & Hd & _ & Hl & Hn).
exists Y, g. repeat split; assumption.
Qed.

End Shift.

(** ** [completion] *)
Section Completion.
Context `{BaseForms}.

(** The two facts about the base library that keep the depth under control:
    scaling or dividing by a nonzero rational does not change whether a form
    is zero. *)
Hypothesis smul_truth :
  forall c x, ~ (c == 0)%Q -> form_bool (form_smul c x) = form_bool x.
Hypothesis div_truth :
  forall c x, ~ (c == 0)%Q -> form_bool (form_div x c) = form_bool x.

(** Division by a nonzero scalar keeps the depth. *)
Lemma div_spec (f : WeilRepQuasiModularForm) (c : Q) :
  well_formed f -> ~ (c == 0)%Q ->
  exists g, Quasi.__div__ f c = Ok g /\ well_formed g /\
            Quasi.depth g = Quasi.depth f.
Proof.
intros Hwf Hc. unfold Quasi.__div__.
destruct (Qeq_bool c 0) eqn:Ec; [ apply Qeq_bool_iff in Ec; contradiction | ].
destruct (Nat.eq_dec (Quasi.depth f) 0) as [Hr | Hr].
- assert (Et : Quasi._terms f = [q_form f]).
  { revert Hwf Hr. unfold well_formed, Quasi._terms, Quasi.depth.
    destruct (q_attrs f) as [[t r] |]; [ intros (? & _) ?; lia | reflexivity ]. }
  rewrite Et. cbn [map].
  destruct (init_ok (weight (q_form f)) (gram_matrix (q_form f))
                    [form_div (q_form f) c] (weilrep (q_form f)))
    as (g & Hg & _ & _ & _ & Hd & Hwfg); [ discriminate | ].
  exists g. split; [ exact Hg | ]. split; [ exact Hwfg | ].
  rewrite Hd, Hr. reflexivity.
- destruct (well_formed_leading f Hwf ltac:(lia)) as (t0 & rest & Et & Ht0 & Hrest).
  rewrite Et. cbn [map].
  destruct (init_ok (weight (q_form f)) (gram_matrix (q_form f))
                    (form_div t0 c :: map (fun x => form_div x c) rest)
                    (weilrep (q_form f)))
    as (g & Hg & _ & _ & _ & Hd & Hwfg); [ discriminate | ].
  exists g. split; [ exact Hg | ]. split; [ exact Hwfg | ].
  rewrite Hd, trimmed_depth_leading, length_map; [ exact Hrest | ].
  rewrite div_truth by exact Hc. exact Ht0.
Qed.

Lemma completion_loop_from (f : WeilRepQuasiModularForm) (r m n : nat)
  (X : list WeilRepQuasiModularForm) :
  m + n = r -> completion_invariant f r m X ->
  exists X',
    foldM (fun '(X, j) i =>
             let j := (j * (i + 1))%Z in
             last <- last_item X ;;
             s <- Quasi.shift last ;;
             x <- Quasi.__div__ s (inject_Z j) ;;
             Ok (X ++ [x], j))
          (map (fun x => (0 + Z.of_nat x)%Z) (seq m n)) (X, factorial m)
    = Ok (X', factorial r) /\
    completion_invariant f r r X'.
Proof.
revert m X; induction n as [| n IH]; intros m X Hmn Hinv.
- replace m with r in * by lia. exists X. split; [ reflexivity | exact Hinv ].
- destruct Hinv as (Hlen & Hfirst & (x & Hx & Hwfx & Hdx) & Hsteps).
  cbn [seq map foldM].
  replace (factorial m * (0 + Z.of_nat m + 1))%Z with (factorial (m + 1))
    by (rewrite factorial_succ; lia).
  rewrite (last_item_nth X x) by (intros E; rewrite E in Hlen; simpl in Hlen; lia).
  rewrite Hlen. replace (m + 1 - 1) with m by lia.
  rewrite (nth_error_nth X m x Hx). cbn [bind].
  destruct (shift_spec x smul_truth Hwfx) as [_ Hshift].
  destruct (Hshift ltac:(lia)) as (Y & s & Hs & _ & _ & Hds & Hwfs & _).
  rewrite Hs. cbn [bind].
  destruct (div_spec s (inject_Z (factorial (m + 1))) Hwfs) as (c & Hc & Hwfc & Hdc).
  { apply inject_Z_nonzero. pose proof (factorial_pos (m + 1)). lia. }
  rewrite Hc. cbn [bind].
  replace (Datatypes.S m) with (m + 1) by lia.
  apply IH; [ lia | ].
  split; [ rewrite length_app, Hlen; simpl; lia | ].
  split; [ rewrite nth_error_app1 by lia; exact Hfirst | ].
  split.
  + exists c. split; [ | split; [ exact Hwfc | lia ] ].
    rewrite nth_error_app2 by lia. rewrite Hlen, Nat.sub_diag. reflexivity.
  + intros i Hi. destruct (Nat.eq_dec i (m + 1)) as [-> | Hne].
    * exists x, s, c. replace (m + 1 - 1) with m by lia.
      split; [ rewrite nth_error_app1 by lia; exact Hx | ].
      split; [ exact Hs | ]. split; [ exact Hc | ].
      rewrite nth_error_app2 by lia. rewrite Hlen, Nat.sub_diag. reflexivity.
    * destruct (Hsteps i ltac:(lia)) as (prev & s' & cur & Hp & Hs' & Hc' & Hcur).
      exists prev, s', cur.
      split; [ rewrite nth_error_app1 by lia; exact Hp | ].
      split; [ exact Hs' | ]. split; [ exact Hc' | ].
      rewrite nth_error_app1 by lia. exact Hcur.
Qed.

(** C3 (as the code has it). [completion] of a form [f] of depth [r] wraps
    [r + 1] entries: entry 0 is [f], and for [1 <= i <= r] entry [i] is the
    shift of entry [i - 1] divided by the running product [j], which the
    loop multiplies by [i] in every pass: the divisor of entry [i] is [i!],
    not [i]. *)
Theorem completion_entries (f : WeilRepQuasiModularForm) :
  well_formed f ->
  let r := Quasi.depth f in
  exists X,
    AlmostHolomorphic.completion f =
    Ok (mkCompletion (weight (q_form f)) (gram_matrix (q_form f)) X
                     (weilrep (q_form f)) r) /\
    List.length X = r + 1 /\
    nth_error X 0 = Some f /\
    forall i, 1 <= i <= r ->
      exists prev s cur,
        nth_error X (i - 1) = Some prev /\ Quasi.shift prev = Ok s /\
        Quasi.__div__ s (inject_Z (factorial i)) = Ok cur /\
        nth_error X i = Some cur.
Proof.
intros Hwf r.
destruct (completion_loop_from f r 0 r [f]) as (X & Hloop & Hinv); [ lia | | ].
{ split; [ reflexivity | ]. split; [ reflexivity | ]. split.
  - exists f. split; [ reflexivity | ]. split; [ exact Hwf | unfold r; lia ].
  - intros i Hi. lia. }
destruct Hinv as (Hlen & Hfirst & _ & Hsteps).
exists X. unfold AlmostHolomorphic.completion, AlmostHolomorphic.completion_loop.
fold r. unfold range. replace (Z.to_nat (Z.of_nat r - 0)) with r by lia.
change (factorial 0) with 1%Z in Hloop. cbv zeta in Hloop. rewrite Hloop. cbn [bind fst].
unfold AlmostHolomorphic.__init__. rewrite (item_Some _ _ _ Hfirst). cbn [bind].
repeat split; assumption.
Qed.

End Completion.

(** ** The tensor product *)
Section Product.
Context `{BaseForms}.

Lemma foldM_app {A S : Type} (body : S -> A -> result S) (l1 l2 : list A) (s : S) :
  foldM body (l1 ++ l2) s = (s' <- foldM body l1 s ;; foldM body l2 s').
Proof.
revert s; induction l1 as [| x l1 IH]; intros s; cbn [app foldM bind].
- reflexivity.
- destruct (body s x) as [s' | e]; cbn [bind]; [ apply IH | reflexivity ].
Qed.

(** The double loop visits the pairs of [list_prod] one after the other. *)
Lemma product_terms_flat (t1 t2 : list WeilRepModularForm) (r s : nat)
  (X : list WeilRepModularForm) :
  Quasi.product_terms t1 t2 r s X =
  foldM (fun X ij => Quasi.accumulate t1 t2 X (fst ij) (snd ij)) (loop_pairs r s) X.
Proof.
unfold Quasi.product_terms, loop_pairs.
generalize (seq 0 (r + 1)) as rows. generalize (seq 0 (s + 1)) as cols.
intros cols rows. revert X.
induction rows as [| i rows IH]; intros X; cbn [list_prod foldM].
- reflexivity.
- rewrite foldM_app.
  assert (Hrow : forall X,
    foldM (fun X j => Quasi.accumulate t1 t2 X i j) cols X =
    foldM (fun X ij => Quasi.accumulate t1 t2 X (fst ij) (snd ij))
          (map (fun y => (i, y)) cols) X).
  { clear. induction cols as [| j cols IHc]; intros X; cbn [map foldM fst snd].
    - reflexivity.
    - destruct (Quasi.accumulate t1 t2 X i j); cbn [bind]; [ apply IHc | reflexivity ]. }
  rewrite Hrow.
  destruct (foldM _ (map (fun y => (i, y)) cols) X); cbn [bind];
    [ apply IH | reflexivity ].
Qed.

Lemma accumulate_pairs (t1 t2 : list WeilRepModularForm) (z : WeilRepModularForm)
  (ps : list (nat * nat)) :
  forall X,
  (forall ij, In ij ps ->
     fst ij < List.length t1 /\ snd ij < List.length t2 /\
     fst ij + snd ij < List.length X) ->
  exists X',
    foldM (fun X ij => Quasi.accumulate t1 t2 X (fst ij) (snd ij)) ps X = Ok X' /\
    List.length X' = List.length X /\
    forall n, nth n X' z = accumulated t1 t2 z ps n (nth n X z).
Proof.
induction ps as [| [i j] ps IH]; intros X Hps.
- exists X. repeat split; reflexivity.
- destruct (Hps (i, j) (or_introl eq_refl)) as (Hi & Hj & Hij). cbn [fst snd] in *.
  cbn [foldM fst snd]. unfold Quasi.accumulate at 1.
  rewrite (item_nth t1 i z Hi), (item_nth t2 j z Hj), (item_nth X (i + j) z Hij).
  cbn [bind]. rewrite set_item_nat by exact Hij. cbn [bind].
  set (X1 := update X (i + j) _).
  destruct (IH X1) as (X' & Hrun & Hlen & Hnth).
  { intros ij Hin. unfold X1. rewrite update_length.
    apply Hps. right. exact Hin. }
  exists X'. split; [ exact Hrun | ].
  split; [ rewrite Hlen; unfold X1; apply update_length | ].
  intros n. rewrite Hnth. unfold accumulated. cbn [filter fst snd].
  unfold X1. rewrite nth_update by exact Hij.
  rewrite (Nat.eqb_sym n (i + j)).
  destruct (i + j =? n) eqn:E; [ | reflexivity ].
  apply Nat.eqb_eq in E. subst n. reflexivity.
Qed.

Lemma loop_pairs_bounds (r s : nat) (ij : nat * nat) :
  In ij (loop_pairs r s) -> fst ij <= r /\ snd ij <= s.
Proof.
destruct ij as [i j]. unfold loop_pairs. intros Hin.
apply in_prod_iff in Hin. destruct Hin as [Hi Hj].
apply in_seq in Hi. apply in_seq in Hj. cbn [fst snd]. lia.
Qed.

Lemma filter_none {A : Type} (p : A -> bool) (l : list A) :
  (forall x, In x l -> p x = false) -> filter p l = [].
Proof.
induction l as [| x l IH]; intros Hp; cbn [filter]; [ reflexivity | ].
rewrite (Hp x (or_introl eq_refl)). apply IH.
intros y Hy. apply Hp. right. exact Hy.
Qed.

(** Only the pair [(0, 0)] reaches the leading accumulator. *)
Lemma loop_pairs_leading (r s : nat) :
  filter (fun ij => fst ij + snd ij =? 0) (loop_pairs r s) = [(0, 0)].
Proof.
unfold loop_pairs. rewrite !Nat.add_1_r. cbn [seq list_prod map app filter fst snd Nat.add Nat.eqb].
f_equal. rewrite filter_app.
rewrite !filter_none; [ reflexivity | | ].
- intros [i j] Hin. apply in_prod_iff in Hin. destruct Hin as [Hi _].
  apply in_seq in Hi. cbn [fst snd]. apply Nat.eqb_neq. lia.
- intros [i j] Hin. apply in_map_iff in Hin. destruct Hin as (y & E & Hy).
  injection E as <- <-. apply in_seq in Hy. cbn [fst snd]. apply Nat.eqb_neq. lia.
Qed.

(** What [__mul__] hands to the constructor. *)
Lemma mul_unfold (f g : WeilRepQuasiModularForm) (z : WeilRepModularForm) :
  well_formed f -> well_formed g ->
  let r := Quasi.depth f in
  let s := Quasi.depth g in
  let t1 := Quasi._terms f in
  let t2 := Quasi._terms g in
  let k := (weight (q_form f) + weight (q_form g))%Q in
  let w := wr_add (weilrep (q_form f)) (weilrep (q_form g)) in
  let j := (k - inject_Z (Z.of_nat (r + s)) - inject_Z (Z.of_nat (r + s)))%Q in
  let p := form_precision (q_form f) in
  exists X,
    Quasi.__mul__ f (Form g) = Quasi.__init__ k (wr_gram_matrix w) X w /\
    List.length X = r + s + 1 /\
    forall n, n <= r + s ->
      nth n X z =
      accumulated t1 t2 z (loop_pairs r s) n
          (wr_zero w (inject_Z (Z.of_nat n) + inject_Z (Z.of_nat n) + j)%Q p).
Proof.
intros Hf Hg r s t1 t2 k w j p.
pose proof (well_formed_terms_length f Hf) as Hl1. fold t1 r in Hl1.
pose proof (well_formed_terms_length g Hg) as Hl2. fold t2 s in Hl2.
unfold Quasi.__mul__. fold r s t1 t2 k w j p.
rewrite product_terms_flat.
destruct (accumulate_pairs t1 t2 z (loop_pairs r s) (Quasi.accumulators w (r + s) j p))
  as (X & Hrun & Hlen & Hnth).
{ intros ij Hin. apply loop_pairs_bounds in Hin.
  unfold Quasi.accumulators. rewrite length_map, length_seq. lia. }
exists X. rewrite Hrun. cbn [bind].
split; [ reflexivity | ].
unfold Quasi.accumulators in Hlen. rewrite length_map, length_seq in Hlen.
split; [ exact Hlen | ].
intros n Hn. rewrite Hnth. f_equal.
unfold Quasi.accumulators. rewrite nth_map_seq by lia. reflexivity.
Qed.

(** C4 (as the code has it). For forms [f] and [g] of depths [r] and [s],
    [f * g] is the form of weight [weight f + weight g] that the constructor
    builds from [r + s + 1] accumulators; the accumulator of index [n] is the
    zero form plus the products [t1[i]*t2[j]] over all pairs with
    [i + j = n], [i <= r], [j <= s].  The constructor trims zero leading
    accumulators, so the depth is at most [r + s]; it is [r + s] when the
    leading accumulator [zero + t1[0]*t2[0]] is nonzero, and smaller when it
    is zero and [r + s >= 1]. *)
Theorem product_depth_weight (f g : WeilRepQuasiModularForm) :
  well_formed f -> well_formed g ->
  let r := Quasi.depth f in
  let s := Quasi.depth g in
  let t1 := Quasi._terms f in
  let t2 := Quasi._terms g in
  let k := (weight (q_form f) + weight (q_form g))%Q in
  let w := wr_add (weilrep (q_form f)) (weilrep (q_form g)) in
  let j := (k - inject_Z (Z.of_nat (r + s)) - inject_Z (Z.of_nat (r + s)))%Q in
  let p := form_precision (q_form f) in
  exists X h t0 u0,
    Quasi.__mul__ f (Form g) = Ok h /\
    Quasi.__init__ k (wr_gram_matrix w) X w = Ok h /\
    weight (q_form h) = k /\
    List.length X = r + s + 1 /\
    (forall n, n <= r + s ->
       nth_error X n =
       Some (accumulated t1 t2 t0 (loop_pairs r s) n
               (wr_zero w (inject_Z (Z.of_nat n) + inject_Z (Z.of_nat n) + j)%Q p))) /\
    nth_error t1 0 = Some t0 /\ nth_error t2 0 = Some u0 /\
    let leading := form_add (wr_zero w (inject_Z 0 + inject_Z 0 + j)%Q p)
                            (form_mul t0 u0) in
    nth_error X 0 = Some leading /\
    Quasi.depth h <= r + s /\
    (form_bool leading = true -> Quasi.depth h = r + s) /\
    (form_bool leading = false -> 1 <= r + s -> Quasi.depth h < r + s).
Proof.
intros Hf Hg r s t1 t2 k w j p.
pose proof (well_formed_terms_length f Hf) as Hl1. fold t1 r in Hl1.
pose proof (well_formed_terms_length g Hg) as Hl2. fold t2 s in Hl2.
destruct t1 as [| t0 rest1] eqn:E1; [ simpl in Hl1; lia | ].
destruct t2 as [| u0 rest2] eqn:E2; [ simpl in Hl2; lia | ].
rewrite <- E1, <- E2 in *.
destruct (mul_unfold f g t0 Hf Hg) as (X & Hmul & Hlen & Hnth).
fold r s t1 t2 k w j p in Hmul, Hlen, Hnth.
destruct (init_ok k (wr_gram_matrix w) X w) as (h & Hh & Hw & _ & _ & Hd & _).
{ intros E. rewrite E in Hlen. simpl in Hlen. lia. }
exists X, h, t0, u0. rewrite Hmul.
assert (Hlead : nth_error X 0 =
          Some (form_add (wr_zero w (inject_Z 0 + inject_Z 0 + j)%Q p)
                         (form_mul t0 u0))).
{ rewrite (nth_error_nth' X t0) by lia. f_equal.
  rewrite Hnth by lia. unfold accumulated. rewrite loop_pairs_leading.
  cbn [fold_left fst snd]. rewrite E1, E2. reflexivity. }
split; [ exact Hh | ]. split; [ exact Hh | ]. split; [ exact Hw | ].
split; [ exact Hlen | ].
split.
{ intros n Hn. rewrite (nth_error_nth' X t0) by lia. f_equal. apply Hnth. exact Hn. }
split; [ rewrite E1; reflexivity | ]. split; [ rewrite E2; reflexivity | ].
cbv zeta. split; [ exact Hlead | ].
destruct X as [| x0 Xrest]; [ simpl in Hlen; lia | ].
cbn [nth_error] in Hlead. injection Hlead as Hx0. simpl in Hlen.
rewrite Hd. split; [ | split ].
- pose proof (trimmed_depth_le (x0 :: Xrest)) as Hle. simpl in Hle. lia.
- intros Ht. rewrite trimmed_depth_leading by (rewrite Hx0; exact Ht). lia.
- intros Hz Hrs.
  pose proof (trimmed_depth_zero_leading x0 Xrest ltac:(rewrite Hx0; exact Hz)). lia.
Qed.

End Product.

(** ** Addition and subtraction *)
Section Sums.
Context `{BaseForms}.

(** C5 (as the code has it). For a nonzero right operand, [+] and [-] raise
    the Gram-matrix error when the Gram matrices differ, and the weight error
    when the Gram matrices agree and the weights differ.  Nothing is assumed
    about the term lists: the checks come before any term is looked up. *)
Theorem incompatible_operands (f g : WeilRepQuasiModularForm) :
  form_bool (q_form g) = true ->
  (gram_matrix (q_form f) <> gram_matrix (q_form g) ->
   Quasi.__add__ f (Form g) = Raise (ValueError "Incompatible Gram matrices") /\
   Quasi.__sub__ f (Form g) = Raise (ValueError "Incompatible Gram matrices")) /\
  (gram_matrix (q_form f) = gram_matrix (q_form g) ->
   ~ (weight (q_form f) == weight (q_form g))%Q ->
   Quasi.__add__ f (Form g) = Raise (ValueError "Incompatible weights") /\
   Quasi.__sub__ f (Form g) = Raise (ValueError "Incompatible weights")).
Proof.
intros Hg. unfold Quasi.__add__, Quasi.__sub__. cbn [Quasi.truth]. rewrite Hg.
cbn [negb]. split.
- intros HS.
  destruct (Matrix_eq_dec (gram_matrix (q_form f)) (gram_matrix (q_form g)));
    [ contradiction | split; reflexivity ].
- intros HS Hk.
  destruct (Matrix_eq_dec (gram_matrix (q_form f)) (gram_matrix (q_form g)));
    [ | contradiction ].
  destruct (Qeq_bool (weight (q_form f)) (weight (q_form g))) eqn:E;
    [ apply Qeq_bool_iff in E; contradiction | split; reflexivity ].
Qed.

(** C9. A zero right operand is absorbed before any check: [f + x] and
    [f - x] return [f], and a completion plus or minus a zero operand
    returns the completion itself. *)
Theorem falsy_operand (f : WeilRepQuasiModularForm) (x : operand)
  (h : WeilRepAlmostHolomorphicModularForm) (y : lazy_operand) :
  Quasi.truth x = false -> AlmostHolomorphic.truth y = false ->
  Quasi.__add__ f x = Ok f /\ Quasi.__sub__ f x = Ok f /\
  AlmostHolomorphic.__add__ h y = Ok h /\ AlmostHolomorphic.__sub__ h y = Ok h.
Proof.
intros Hx Hy.
unfold Quasi.__add__, Quasi.__sub__, AlmostHolomorphic.__add__,
  AlmostHolomorphic.__sub__.
rewrite Hx, Hy. repeat split; reflexivity.
Qed.

End Sums.

(** ** Powers *)
Section Power.
Context `{BaseForms}.

Lemma pow_one (f : WeilRepQuasiModularForm) : Quasi.__pow__ f 1 = Ok f.
Proof. rewrite Quasi.__pow___equation_1. reflexivity. Qed.

Lemma pow_split (f : WeilRepQuasiModularForm) (N : Z) :
  (1 < N)%Z ->
  Quasi.__pow__ f N =
  (x <- Quasi.__pow__ f (N / 2)%Z ;;
   y <- Quasi.__pow__ f (N - N / 2)%Z ;;
   Quasi.__mul__ x (Form y)).
Proof.
intros HN. rewrite Quasi.__pow___equation_1 at 1.
destruct (Z.eq_dec N 1); [ lia | ].
cbn [Quasi.__pow___unfold_clause_1].
destruct (Z_lt_dec 1 N); [ reflexivity | lia ].
Qed.





End Power.

(** ** The series derivative *)
Section SeriesDerivative.

Lemma getitem_coefficient (f : series) (n : Z) :
  (n < prec f)%Z -> getitem f n = Some (coefficient f n).
Proof.
intros Hn. unfold getitem, coefficient.
destruct (n <? start f)%Z; [ reflexivity | ].
destruct (nth_error (coeffs f) (Z.to_nat (n - start f))) as [c |] eqn:E.
- rewrite (nth_error_nth _ _ _ E). reflexivity.
- apply nth_error_None in E. rewrite nth_overflow by exact E.
  destruct (Z.ltb_spec n (prec f)); [ reflexivity | lia ].
Qed.

Lemma nth_error_range (lo hi : Z) (i : nat) :
  (Z.of_nat i < hi - lo)%Z ->
  nth_error (range lo hi) i = Some (lo + Z.of_nat i)%Z.
Proof.
intros Hi. unfold range.
rewrite (nth_error_map_seq (fun n => (lo + Z.of_nat n)%Z) 0 _ i) by lia.
reflexivity.
Qed.

(** C7 (as the code has it). For a nonzero component series [f] with
    valuation [val] and precision [prec], the series [a offset f] has
    precision [prec - floor(offset)] and its coefficient at [n] is
    [(n + offset) * f[n]] for every [n] in [[val, prec)] that lies below that
    new precision (all of them when [floor(offset) <= 0]); a zero series is
    mapped to [O(q^prec)]. *)
Theorem series_derivative (offset : Q) (f : series) :
  (is_zero f = true -> a offset f = bigO (prec f)) /\
  (is_zero f = false ->
   prec (a offset f) = (prec f - Qfloor offset)%Z /\
   forall n, (valuation f <= n < prec f)%Z -> (n < prec f - Qfloor offset)%Z ->
     exists c, getitem f n = Some c /\
               getitem (a offset f) n = Some ((inject_Z n + offset) * c)%Q).
Proof.
unfold a. split; intros Hz; rewrite Hz; [ reflexivity | ].
split; [ reflexivity | ].
intros n [Hlo Hhi] Hnew. exists (coefficient f n).
split; [ apply getitem_coefficient; exact Hhi | ].
unfold getitem, add_bigoh. cbn [start coeffs prec].
destruct (Z.ltb_spec n (valuation f)); [ lia | ].
rewrite nth_error_firstn.
destruct (Nat.ltb_spec (Z.to_nat (n - valuation f))
                       (Z.to_nat (prec f - Qfloor offset - valuation f)));
  [ | lia ].
rewrite nth_error_map, nth_error_range by lia. cbn [option_map].
replace (valuation f + Z.of_nat (Z.to_nat (n - valuation f)))%Z with n by lia.
reflexivity.
Qed.

End SeriesDerivative.

(** ** Mock modular forms *)
Section MockForms.
Context `{BaseForms}.

(** C8. [m + x] and [m - x] combine the shadows when [x] is a mock form and
    keep the shadow of [m] otherwise; [m * c] scales the shadow by [c]; a
    non-scalar factor and [derivative] give [NotImplemented].  [m / c] is
    [m * ~c]: for a Sage number [c <> 0] it scales form and shadow by [1/c],
    and for the Sage number 0 it raises; for a Python int [n] it scales them
    by [-n - 1] instead, so [m / 2] is [m * (-3)] and [m / 0] is [m * (-1)]. *)
Theorem mock_arithmetic (m : WeilRepMockModularForm) :
  (forall x,
     Mock.shadow (Mock.__add__ m (MockForm x)) =
     form_add (Mock.shadow m) (Mock.shadow x) /\
     Mock.shadow (Mock.__sub__ m (MockForm x)) =
     form_sub (Mock.shadow m) (Mock.shadow x)) /\
  (forall x,
     Mock.shadow (Mock.__add__ m (PlainForm x)) = Mock.shadow m /\
     Mock.shadow (Mock.__sub__ m (PlainForm x)) = Mock.shadow m) /\
  (forall c, exists m',
     Mock.__mul__ m (Rational c) = Value m' /\
     Mock.shadow m' = form_smul c (Mock.shadow m)) /\
  (forall c, ~ (c == 0)%Q -> exists m',
     Mock.__truediv__ m (SageNumber c) = Ok (Value m') /\
     Mock.__mul__ m (Rational (/ c)%Q) = Value m' /\
     Mock.shadow m' = form_smul (/ c)%Q (Mock.shadow m)) /\
  (forall c, (c == 0)%Q ->
     Mock.__truediv__ m (SageNumber c) = Raise ZeroDivisionError) /\
  (forall n, exists m',
     Mock.__truediv__ m (PythonInt n) = Ok (Value m') /\
     Mock.__mul__ m (Rational (inject_Z (- n - 1))) = Value m' /\
     Mock.shadow m' = form_smul (inject_Z (- n - 1)) (Mock.shadow m)) /\
  (exists m2 m0,
     Mock.__truediv__ m (PythonInt 2) = Ok (Value m2) /\
     Mock.shadow m2 = form_smul (-3 # 1)%Q (Mock.shadow m) /\
     Mock.__truediv__ m (PythonInt 0) = Ok (Value m0) /\
     Mock.shadow m0 = form_smul (-1 # 1)%Q (Mock.shadow m)) /\
  (forall x, Mock.__mul__ m (NonScalar x) = NotImplemented) /\
  Mock.derivative m = NotImplemented.
Proof.
split; [ intros x; split; reflexivity | ].
split; [ intros x; split; reflexivity | ].
split; [ intros c; eexists; split; reflexivity | ].
split.
{ intros c Hc. unfold Mock.__truediv__, Mock.invert.
  destruct (Qeq_bool c 0) eqn:E; [ apply Qeq_bool_iff in E; contradiction | ].
  eexists; repeat split; reflexivity. }
split.
{ intros c Hc. unfold Mock.__truediv__, Mock.invert.
  apply Qeq_bool_iff in Hc. rewrite Hc. reflexivity. }
split.
{ intros n. unfold Mock.__truediv__, Mock.invert. cbn [bind].
  replace (Z.lnot n) with (- n - 1)%Z by (unfold Z.lnot; lia).
  eexists; repeat split; reflexivity. }
split; [ | split; [ intros x; reflexivity | reflexivity ] ].
do 2 eexists. repeat split; reflexivity.
Qed.

End MockForms.

(** ** Derivative at depth equal to weight *)
Section DerivativeDepth.
Context `{BaseForms}.

(** What the constructor returns on a non-empty list: the stored terms are
    the list from its first nonzero entry on. *)
Lemma init_unfold (k : Q) (S : Matrix) (terms : list WeilRepModularForm)
  (w : WeilRep) (dflt : WeilRepModularForm) :
  terms <> [] ->
  Quasi.__init__ k S terms w =
  Ok (mkQuasi
        (mkForm k S (fourier_expansion (nth (List.length terms - 1) terms dflt)) w)
        (let j := first_index form_bool terms in
         if j <? List.length terms - 1
         then Some (skipn j terms, List.length terms - 1 - j)
         else None)).
Proof.
intros Hne. unfold Quasi.__init__.
rewrite (last_item_nth terms dflt Hne). cbn [bind]. cbv zeta.
destruct (first_index form_bool terms <? List.length terms - 1); reflexivity.
Qed.

(** C10. When the depth [r] of [f] equals its weight [k], [derivative] hands
    the constructor a list [X] of [r + 2] terms for the weight [k + 2] whose
    leading entry is [(r - k) * t[0]], a form scaled by zero.  That entry is
    zero, so the constructor trims it: the first nonzero index [j] of [X] is
    at least 1, the derivative stores [X[j:]] with depth [r + 1 - j] (or has
    no stored terms and depth 0 when nothing nonzero precedes the last
    entry), its depth is at most [r], and a form of weight 0 and depth 0
    keeps depth 0. *)
Theorem derivative_depth_at_weight (f : WeilRepQuasiModularForm) :
  (forall c x, (c == 0)%Q -> form_bool (form_smul c x) = false) ->
  well_formed f -> fourier_expansion (q_form f) <> [] ->
  (weight (q_form f) == inject_Z (Z.of_nat (Quasi.depth f)))%Q ->
  exists X g t0,
    Quasi.derivative f = Ok g /\
    Quasi.__init__ (weight (q_form f) + 2)%Q (gram_matrix (q_form f)) X
                   (weilrep (q_form f)) = Ok g /\
    List.length X = Quasi.depth f + 2 /\
    nth_error (Quasi._terms f) 0 = Some t0 /\
    nth_error X 0 =
    Some (form_smul (inject_Z (Z.of_nat (Quasi.depth f)) - weight (q_form f))%Q t0) /\
    form_bool (form_smul (inject_Z (Z.of_nat (Quasi.depth f)) - weight (q_form f))%Q t0)
    = false /\
    1 <= first_index form_bool X /\
    q_attrs g =
    (if first_index form_bool X <? Quasi.depth f + 1
     then Some (skipn (first_index form_bool X) X,
                Quasi.depth f + 1 - first_index form_bool X)
     else None) /\
    weight (q_form g) = (weight (q_form f) + 2)%Q /\
    Quasi.depth g = trimmed_depth X /\
    Quasi.depth g <= Quasi.depth f /\
    (Quasi.depth f = 0 -> Quasi.depth g = 0).
Proof.
intros Hzero Hwf Hfe Hk.
pose proof (well_formed_terms_length f Hwf) as Hlen.
destruct (Quasi._terms f) as [| t0 rest] eqn:Et; [ simpl in Hlen; lia | ].
pose proof (derivative_unfold f t0 Hwf Hfe) as Hd. cbv zeta in Hd.
rewrite Et in Hd. cbn [nth app] in Hd.
match type of Hd with _ = Quasi.__init__ _ _ (?x :: ?l) _ =>
  set (x0 := x) in *; set (Xrest := l) in * end.
assert (Hx0 : form_bool x0 = false).
{ unfold x0. apply Hzero. rewrite Hk. ring. }
assert (HlenX : List.length Xrest = Quasi.depth f + 1).
{ unfold Xrest. rewrite length_app, length_map, length_seq. simpl. lia. }
assert (HlenX' : List.length (x0 :: Xrest) - 1 = Quasi.depth f + 1).
{ cbn [List.length]. lia. }
assert (Hne : x0 :: Xrest <> []) by discriminate.
pose proof (init_unfold (weight (q_form f) + 2)%Q (gram_matrix (q_form f))
                        (x0 :: Xrest) (weilrep (q_form f)) t0 Hne) as Hg.
cbv zeta in Hg. rewrite HlenX' in Hg.
pose proof (trimmed_depth_zero_leading x0 Xrest Hx0) as Hle.
assert (Hdg : forall g, Quasi.__init__ (weight (q_form f) + 2)%Q
                          (gram_matrix (q_form f)) (x0 :: Xrest)
                          (weilrep (q_form f)) = Ok g ->
                        Quasi.depth g = trimmed_depth (x0 :: Xrest)).
{ intros g Eg.
  destruct (init_ok (weight (q_form f) + 2)%Q (gram_matrix (q_form f))
                    (x0 :: Xrest) (weilrep (q_form f)) Hne)
    as (g' & Hg' & _ & _ & _ & Hd' & _).
  rewrite Eg in Hg'. injection Hg' as ->. exact Hd'. }
eexists (x0 :: Xrest), _, t0. rewrite Hd.
split; [ exact Hg | ]. split; [ exact Hg | ].
split; [ cbn [List.length]; lia | ].
split; [ reflexivity | ]. split; [ reflexivity | ]. split; [ exact Hx0 | ].
split; [ rewrite (first_index_skip _ _ _ Hx0); lia | ].
split; [ reflexivity | ]. split; [ reflexivity | ].
rewrite (Hdg _ Hg). split; [ reflexivity | ]. split; lia.
Qed.

End DerivativeDepth.

(** ** The reference library: laws and the docstring examples *)
Section ReferenceLaws.
Import Reference.

Lemma Qeq_bool_scale (c x : Q) :
  ~ (c == 0)%Q -> Qeq_bool (Qred (c * x)) 0 = Qeq_bool x 0.
Proof.
intros Hc. apply Bool.eq_iff_eq_true. rewrite !Qeq_bool_iff, Qred_correct.
split.
- intros E. destruct (Qmult_integral _ _ E); [ contradiction | assumption ].
- intros E. rewrite E. ring.
Qed.

Lemma Qeq_bool_scale_zero (c x : Q) :
  (c == 0)%Q -> Qeq_bool (Qred (c * x)) 0 = true.
Proof.
intros Hc. apply Qeq_bool_iff. rewrite Qred_correct, Hc. ring.
Qed.

Lemma is_zero_scale (c : Q) (f : series) :
  ~ (c == 0)%Q -> is_zero (series_scale c f) = is_zero f.
Proof.
intros Hc. unfold is_zero, series_scale. cbn [coeffs].
induction (coeffs f) as [| x l IH]; cbn [map forallb]; [ reflexivity | ].
rewrite IH, Qeq_bool_scale by exact Hc. reflexivity.
Qed.

Lemma is_zero_scale_zero (c : Q) (f : series) :
  (c == 0)%Q -> is_zero (series_scale c f) = true.
Proof.
intros Hc. unfold is_zero, series_scale. cbn [coeffs].
induction (coeffs f) as [| x l IH]; cbn [map forallb]; [ reflexivity | ].
rewrite IH, Qeq_bool_scale_zero by exact Hc. reflexivity.
Qed.

Lemma reference_smul_truth (c : Q) (x : WeilRepModularForm) :
  ~ (c == 0)%Q -> form_bool (form_smul c x) = form_bool x.
Proof.
intros Hc. cbn [form_bool form_smul forms]. unfold nonzero, smul, map_components.
cbn [fourier_expansion].
induction (fourier_expansion x) as [| y l IH]; cbn [map existsb snd]; [ reflexivity | ].
rewrite IH, is_zero_scale by exact Hc. reflexivity.
Qed.

Lemma reference_div_truth (c : Q) (x : WeilRepModularForm) :
  ~ (c == 0)%Q -> form_bool (form_div x c) = form_bool x.
Proof.
intros Hc. cbn [form_div forms]. unfold div.
apply reference_smul_truth.
intros E. apply Hc. rewrite <- (Qinv_involutive c), E. reflexivity.
Qed.

Lemma reference_smul_zero (c : Q) (x : WeilRepModularForm) :
  (c == 0)%Q -> form_bool (form_smul c x) = false.
Proof.
intros Hc. cbn [form_bool form_smul forms]. unfold nonzero, smul, map_components.
cbn [fourier_expansion].
induction (fourier_expansion x) as [| y l IH]; cbn [map existsb snd]; [ reflexivity | ].
rewrite IH, is_zero_scale_zero by exact Hc. reflexivity.
Qed.

(** The constructor builds [e2] from its two terms. *)
Example e2_constructed :
  Quasi.__init__ (2 # 1) [] [scalar_form 0 minus12; scalar_form (2 # 1) E2] []
  = Ok e2.
Proof. reflexivity. Qed.

(** [e2.shift()] is [-12 + O(q^5)]. *)
Example e2_shift :
  exists g, Quasi.shift e2 = Ok g /\
            fourier_expansion (q_form g) = [([], 0%Q, minus12)].
Proof. eexists. split; reflexivity. Qed.

(** [e2.derivative()] is [-24*q - 144*q^2 - 288*q^3 - 672*q^4 + O(q^5)]. *)
Example e2_derivative :
  exists g, Quasi.derivative e2 = Ok g /\
            fourier_expansion (q_form g) =
            [([], 0%Q, mkSeries 0 [0; -24 # 1; -144 # 1; -288 # 1; -672 # 1]%Q 5)].
Proof. eexists. split; vm_compute; reflexivity. Qed.

(** [e2.completion()] has the two entries [f_0 = E2] and [f_1 = -12]. *)
Example e2_completion :
  exists h, AlmostHolomorphic.completion e2 = Ok h /\
            map (fun x => fourier_expansion (q_form x)) (ah_list h) =
            [[([], 0%Q, E2)]; [([], 0%Q, minus12)]].
Proof. eexists. split; vm_compute; reflexivity. Qed.

End ReferenceLaws.

(** ** The statements at concrete forms *)
Section Instances.
Import Reference.

Lemma e2_well_formed : well_formed e2.
Proof. cbn. repeat split; lia. Qed.

Lemma depth_three_well_formed : well_formed depth_three.
Proof. cbn. repeat split; lia. Qed.

Lemma cuspidal_well_formed : well_formed cuspidal.
Proof. cbn. repeat split; lia. Qed.

(** C1 at [e2]: the derivative has weight 4. *)
Lemma derivative_recurrence_witness :
  well_formed e2 /\ fourier_expansion (q_form e2) <> [] /\
  exists g, Quasi.derivative e2 = Ok g /\ weight (q_form g) = ((2 # 1) + 2)%Q.
Proof.
split; [ exact e2_well_formed | ].
split; [ discriminate | ].
destruct (derivative_recurrence e2 e2_well_formed ltac:(discriminate))
  as (X & g & Hd & _ & Hw & _).
exists g. split; [ exact Hd | exact Hw ].
Defined.

(** C2 at [e2]: the shift has weight -3 and depth 0. *)
Lemma shift_terms_witness :
  well_formed e2 /\ 1 <= Quasi.depth e2 /\
  exists g, Quasi.shift e2 = Ok g /\ weight (q_form g) = inject_Z (-3) /\
            Quasi.depth g = Quasi.depth e2 - 1.
Proof.
split; [ exact e2_well_formed | ].
split; [ cbn; lia | ].
destruct (shift_terms e2 reference_smul_truth e2_well_formed) as [_ Hpos].
destruct (Hpos ltac:(cbn; lia)) as (Y & g & Hs & _ & Hw & Hd & _).
exists g. split; [ exact Hs | ]. split; [ exact Hw | exact Hd ].
Defined.

(** C2 as stated fails at [e2], of depth 1: the shift is built with weight
    [-3], not [1 - 3]. *)
Lemma shift_weight_counterexample :
  exists g, Quasi.shift e2 = Ok g /\ Quasi.depth e2 = 1 /\
            ~ (weight (q_form g) == inject_Z (Z.of_nat (Quasi.depth e2) - 3))%Q.
Proof.
eexists. split; [ reflexivity | ]. split; [ reflexivity | ].
cbn. unfold Qeq. cbn. lia.
Qed.

(** C3 at the form of depth 3: the completion has four entries. *)
Lemma completion_entries_witness :
  well_formed depth_three /\
  exists X, AlmostHolomorphic.completion depth_three =
            Ok (mkCompletion (6 # 1)%Q [] X [] 3) /\
            List.length X = 3 + 1.
Proof.
split; [ exact depth_three_well_formed | ].
destruct (completion_entries reference_smul_truth reference_div_truth
                             depth_three depth_three_well_formed)
  as (X & Hc & Hl & _).
exists X. split; [ exact Hc | exact Hl ].
Defined.

(** C3 as stated fails at the form of depth 3: entry 3 of the completion has
    constant term 1, while the shift of entry 2 divided by 3, and the third
    shift divided by 3!, both have constant term 2. *)
Lemma completion_divisor_counterexample :
  exists h prev cur s by_index s1 s2 s3 by_factorial,
    AlmostHolomorphic.completion depth_three = Ok h /\
    nth_error (ah_list h) 2 = Some prev /\ nth_error (ah_list h) 3 = Some cur /\
    Quasi.shift prev = Ok s /\ Quasi.__div__ s (inject_Z 3) = Ok by_index /\
    Quasi.shift depth_three = Ok s1 /\ Quasi.shift s1 = Ok s2 /\
    Quasi.shift s2 = Ok s3 /\
    Quasi.__div__ s3 (inject_Z (factorial 3)) = Ok by_factorial /\
    (constant_term cur == 1)%Q /\
    (constant_term by_index == 2 # 1)%Q /\
    (constant_term by_factorial == 2 # 1)%Q /\
    cur <> by_index /\ cur <> by_factorial.
Proof.
do 9 eexists.
split; [ vm_compute; reflexivity | ].
split; [ reflexivity | ]. split; [ reflexivity | ].
split; [ vm_compute; reflexivity | ]. split; [ vm_compute; reflexivity | ].
split; [ vm_compute; reflexivity | ]. split; [ vm_compute; reflexivity | ].
split; [ vm_compute; reflexivity | ]. split; [ vm_compute; reflexivity | ].
split; [ vm_compute; reflexivity | ].
split; [ vm_compute; reflexivity | ].
split; [ vm_compute; reflexivity | ].
split; intros E; discriminate E.
Qed.

(** C4 at [e2 * e2]: the weight is [2 + 2]. *)
Lemma product_depth_weight_witness :
  well_formed e2 /\
  exists h, Quasi.__mul__ e2 (Form e2) = Ok h /\
            weight (q_form h) = ((2 # 1) + (2 # 1))%Q /\
            Quasi.depth h <= 1 + 1.
Proof.
split; [ exact e2_well_formed | ].
destruct (product_depth_weight e2 e2 e2_well_formed e2_well_formed)
  as (X & h & t0 & u0 & Hm & _ & Hw & _ & _ & _ & _ & _ & Hd & _).
exists h. split; [ exact Hm | ]. split; [ exact Hw | exact Hd ].
Defined.

(** C4 as stated fails at the square of [cuspidal], of depth 1: the leading
    accumulator [O(q^2) + q^2] is zero and is trimmed, so the product has
    depth 1, not 2. *)
Lemma product_depth_counterexample :
  well_formed cuspidal /\ Quasi.depth cuspidal = 1 /\
  exists h, Quasi.__mul__ cuspidal (Form cuspidal) = Ok h /\
            Quasi.depth h = 1 /\
            Quasi.depth h <> Quasi.depth cuspidal + Quasi.depth cuspidal.
Proof.
split; [ exact cuspidal_well_formed | ]. split; [ reflexivity | ].
eexists. split; [ vm_compute; reflexivity | ].
split; [ reflexivity | ]. cbn. lia.
Qed.

(** C5 at [e2 + rank_one] and [e2 + one]: the two errors. *)
Lemma incompatible_operands_witness :
  form_bool (q_form rank_one) = true /\
  gram_matrix (q_form e2) <> gram_matrix (q_form rank_one) /\
  Quasi.__add__ e2 (Form rank_one) = Raise (ValueError "Incompatible Gram matrices") /\
  Quasi.__sub__ e2 (Form rank_one) = Raise (ValueError "Incompatible Gram matrices").
Proof.
assert (Ht : form_bool (q_form rank_one) = true) by reflexivity.
split; [ exact Ht | ]. split; [ discriminate | ].
destruct (incompatible_operands e2 rank_one Ht) as [Hgram _].
apply Hgram. discriminate.
Defined.

(** C5 as stated fails at [e2] and the zero form of another lattice: the
    Gram matrices differ and both [+] and [-] return [e2]. *)
Lemma incompatible_operands_counterexample :
  gram_matrix (q_form e2) <> gram_matrix (q_form zero_rank_one) /\
  Quasi.__add__ e2 (Form zero_rank_one) = Ok e2 /\
  Quasi.__sub__ e2 (Form zero_rank_one) = Ok e2.
Proof.
split; [ discriminate | ]. split; reflexivity.
Qed.


Lemma polar_well_formed : well_formed polar.
Proof. cbn. repeat split; lia. Qed.


(** C7 at [E2] with offset [-1/4], coefficient of [q^1]. *)
Lemma series_derivative_witness :
  is_zero E2 = false /\ (valuation E2 <= 1 < prec E2)%Z /\
  (1 < prec E2 - Qfloor (-1 # 4))%Z /\
  prec (a (-1 # 4) E2) = (prec E2 - Qfloor (-1 # 4))%Z /\
  exists c, getitem E2 1 = Some c /\
            getitem (a (-1 # 4) E2) 1 = Some ((inject_Z 1 + (-1 # 4)) * c)%Q.
Proof.
destruct (series_derivative (-1 # 4) E2) as [_ Hnz].
assert (Hz : is_zero E2 = false) by reflexivity.
destruct (Hnz Hz) as [Hp Hc].
split; [ reflexivity | ]. split; [ cbn; lia | ]. split; [ cbn; lia | ].
split; [ exact Hp | ].
apply Hc; cbn; lia.
Defined.

(** C7 as stated fails at offset 1 and [1 + q + O(q^2)]: the index 1 lies in
    [[val, prec)], but the result [1 + O(q)] has no coefficient there. *)
Lemma series_derivative_counterexample :
  let f := mkSeries 0 [1; 1]%Q 2 in
  is_zero f = false /\ (valuation f <= 1 < prec f)%Z /\
  getitem f 1 = Some 1%Q /\
  a 1 f = mkSeries 0 [((inject_Z 0 + 1) * 1)%Q] 1 /\
  getitem (a 1 f) 1 = None.
Proof.
cbv zeta. split; [ reflexivity | ]. split; [ cbn; lia | ].
split; [ reflexivity | ]. split; reflexivity.
Qed.

(** C8 at [mock_example] divided by the Sage number 2. *)
Lemma mock_arithmetic_witness :
  ~ ((2 # 1) == 0)%Q /\
  exists m', Mock.__truediv__ mock_example (SageNumber (2 # 1)) = Ok (Value m') /\
             Mock.shadow m' = form_smul (/ (2 # 1))%Q (Mock.shadow mock_example).
Proof.
assert (Hc : ~ ((2 # 1) == 0)%Q) by (unfold Qeq; cbn; lia).
split; [ exact Hc | ].
destruct (mock_arithmetic mock_example) as (_ & _ & _ & Hdiv & _).
destruct (Hdiv (2 # 1)%Q Hc) as (m' & Hm & _ & Hs).
exists m'. split; [ exact Hm | exact Hs ].
Defined.

(** [mock_example / 2] with the Python int 2: the quotient of [1 + 2q + O(q^2)]
    with shadow [q + O(q^2)] comes out as [-3 - 6q + O(q^2)] with shadow
    [-3q + O(q^2)], where the reciprocal [1/2] would give [1/2 + q + O(q^2)]
    with shadow [(1/2) q + O(q^2)]; and division by the Python int 0
    returns [-mock_example] where division by the Sage number 0 raises. *)
Lemma mock_division_by_python_int :
  Mock.__truediv__ mock_example (PythonInt 2) =
  Ok (Value (mkMock (scalar_form (1 # 2) (mkSeries 0 [-3 # 1; -6 # 1]%Q 2))
                    (scalar_form (3 # 2) (mkSeries 0 [0; -3 # 1]%Q 2)))) /\
  Mock.__truediv__ mock_example (SageNumber (2 # 1)) =
  Ok (Value (mkMock (scalar_form (1 # 2) (mkSeries 0 [1 # 2; 1]%Q 2))
                    (scalar_form (3 # 2) (mkSeries 0 [0; 1 # 2]%Q 2)))) /\
  Mock.__truediv__ mock_example (PythonInt 0) =
  Ok (Value (mkMock (scalar_form (1 # 2) (mkSeries 0 [-1 # 1; -2 # 1]%Q 2))
                    (scalar_form (3 # 2) (mkSeries 0 [0; -1 # 1]%Q 2)))) /\
  Mock.__truediv__ mock_example (SageNumber 0) = Raise ZeroDivisionError.
Proof. repeat split; reflexivity. Qed.

(** C9 at [e2], the zero form of another lattice, and the integer 0. *)
Lemma falsy_operand_witness :
  Quasi.truth (Form zero_rank_one) = false /\
  AlmostHolomorphic.truth (LScalar 0) = false /\
  Quasi.__add__ e2 (Form zero_rank_one) = Ok e2 /\
  Quasi.__sub__ e2 (Form zero_rank_one) = Ok e2 /\
  AlmostHolomorphic.__add__ e2_completed (LScalar 0) = Ok e2_completed /\
  AlmostHolomorphic.__sub__ e2_completed (LScalar 0) = Ok e2_completed.
Proof.
assert (Hx : Quasi.truth (Form zero_rank_one) = false) by reflexivity.
assert (Hy : AlmostHolomorphic.truth (LScalar 0) = false) by reflexivity.
split; [ exact Hx | ]. split; [ exact Hy | ].
exact (falsy_operand e2 (Form zero_rank_one) e2_completed (LScalar 0) Hx Hy).
Defined.

(** C10 at the constant 1, of weight 0 and depth 0. *)
Lemma derivative_depth_at_weight_witness :
  well_formed one /\ fourier_expansion (q_form one) <> [] /\
  (weight (q_form one) == inject_Z (Z.of_nat (Quasi.depth one)))%Q /\
  exists X g, Quasi.derivative one = Ok g /\
              Quasi.__init__ (weight (q_form one) + 2)%Q
                             (gram_matrix (q_form one)) X
                             (weilrep (q_form one)) = Ok g /\
              1 <= first_index form_bool X /\
              Quasi.depth g = 0.
Proof.
assert (Hk : (weight (q_form one) == inject_Z (Z.of_nat (Quasi.depth one)))%Q)
  by reflexivity.
split; [ exact I | ]. split; [ discriminate | ]. split; [ exact Hk | ].
destruct (derivative_depth_at_weight one reference_smul_zero I
                                     ltac:(discriminate) Hk)
  as (X & g & t0 & Hd & Hi & _ & _ & _ & _ & Hj & _ & _ & _ & _ & Hzero).
exists X, g. split; [ exact Hd | ]. split; [ exact Hi | ].
split; [ exact Hj | apply Hzero; reflexivity ].
Defined.

End Instances.

(** * Further properties *)

(** ** The constructor: trimming, collapse and reconstruction *)
Section ConstructorTrimming.
Context `{BaseForms}.

Lemma first_index_app_all_false {A : Type} (p : A -> bool) (zeros l : list A) :
  Forall (fun x => p x = false) zeros ->
  first_index p (zeros ++ l) = List.length zeros + first_index p l.
Proof.
induction 1 as [| z zeros Hz _ IH]; cbn [app first_index List.length].
- reflexivity.
- rewrite Hz, IH. reflexivity.
Qed.

Lemma last_item_app_cons {A : Type} (l : list A) (x : A) (rest : list A) :
  last_item (l ++ x :: rest) = Ok (last rest x).
Proof.
rewrite (last_item_nth (l ++ x :: rest) x) by (destruct l; discriminate).
f_equal. rewrite length_app. cbn [List.length].
replace (List.length l + Datatypes.S (List.length rest) - 1)
  with (List.length l + List.length rest) by lia.
rewrite app_nth2 by lia.
replace (List.length l + List.length rest - List.length l)
  with (List.length rest) by lia.
clear l. destruct (exists_last (l := x :: rest)) as (l' & y & E); [ discriminate | ].
destruct rest as [| z rest]; [ reflexivity | ].
assert (El : x :: removelast (z :: rest) ++ [last (z :: rest) x] = x :: z :: rest)
  by (f_equal; symmetry; apply app_removelast_last; discriminate).
rewrite <- El at 1.
change (x :: removelast (z :: rest) ++ [last (z :: rest) x])
  with ((x :: removelast (z :: rest)) ++ [last (z :: rest) x]).
rewrite app_nth2.
- replace (List.length (z :: rest) - List.length (x :: removelast (z :: rest)))
    with 0; [ reflexivity | ].
  cbn [List.length]. rewrite removelast_firstn_len, length_firstn.
  cbn [List.length]. lia.
- cbn [List.length]. rewrite removelast_firstn_len, length_firstn.
  cbn [List.length]. lia.
Qed.

(** The constructor on a list with zero entries in front. *)
Lemma init_trim (k : Q) (S : Matrix) (w : WeilRep)
  (zeros : list WeilRepModularForm) (t0 : WeilRepModularForm)
  (rest : list WeilRepModularForm) :
  Forall (fun x => form_bool x = false) zeros ->
  form_bool t0 = true -> rest <> [] ->
  Quasi.__init__ k S (zeros ++ t0 :: rest) w =
  Ok (mkQuasi (mkForm k S (fourier_expansion (last rest t0)) w)
              (Some (t0 :: rest, List.length rest))).
Proof.
intros Hz Ht Hrest. unfold Quasi.__init__.
rewrite last_item_app_cons. cbn [bind].
rewrite (first_index_app_all_false _ _ _ Hz), (first_index_head _ _ _ Ht).
rewrite length_app. cbn [List.length]. rewrite Nat.add_0_r.
assert (0 < List.length rest) by (destruct rest; [ congruence | simpl; lia ]).
destruct (Nat.ltb_spec (List.length zeros)
            (List.length zeros + Datatypes.S (List.length rest) - 1)); [ | lia ].
rewrite skipn_app, skipn_all, Nat.sub_diag. cbn [skipn app].
do 4 f_equal. lia.
Qed.

(** X1. Zero entries in front of the first nonzero one are dropped: from
    [zeros ++ t0 :: rest] with [t0] nonzero and [rest] nonempty the
    constructor keeps exactly [t0 :: rest], sets the depth to the length of
    [rest], and takes the Fourier expansion of the last entry. *)
Theorem init_trims_leading_zeros (k : Q) (S : Matrix) (w : WeilRep)
  (zeros : list WeilRepModularForm) (t0 : WeilRepModularForm)
  (rest : list WeilRepModularForm) :
  Forall (fun x => form_bool x = false) zeros ->
  form_bool t0 = true -> rest <> [] ->
  Quasi.__init__ k S (zeros ++ t0 :: rest) w =
  Ok (mkQuasi (mkForm k S (fourier_expansion (last rest t0)) w)
              (Some (t0 :: rest, List.length rest))).
Proof. apply init_trim. Qed.

(** The constructor on a list whose entries before the last are zero. *)
Lemma init_collapse (k : Q) (S : Matrix) (w : WeilRep)
  (zeros : list WeilRepModularForm) (x : WeilRepModularForm) :
  Forall (fun x => form_bool x = false) zeros ->
  Quasi.__init__ k S (zeros ++ [x]) w =
  Ok (mkQuasi (mkForm k S (fourier_expansion x) w) None).
Proof.
intros Hz. unfold Quasi.__init__. rewrite last_item_app_cons. cbn [bind last].
rewrite (first_index_app_all_false _ _ _ Hz), length_app. cbn [List.length].
destruct (Nat.ltb_spec (List.length zeros + first_index form_bool [x])
                       (List.length zeros + 1 - 1)); [ lia | reflexivity ].
Qed.

(** X2. An empty list of terms raises [IndexError]; a list all of whose
    entries before the last are zero gives a form without term list, of
    depth 0, that carries the expansion of the last entry, whether that
    entry is zero or not. *)
Theorem init_collapses (k : Q) (S : Matrix) (w : WeilRep)
  (zeros : list WeilRepModularForm) (x : WeilRepModularForm) :
  Forall (fun x => form_bool x = false) zeros ->
  Quasi.__init__ k S [] w = Raise IndexError /\
  Quasi.__init__ k S (zeros ++ [x]) w =
  Ok (mkQuasi (mkForm k S (fourier_expansion x) w) None) /\
  forall f, Quasi.__init__ k S (zeros ++ [x]) w = Ok f ->
            Quasi.depth f = 0 /\ Quasi._terms f = [q_form f].
Proof.
intros Hz. split; [ reflexivity | ].
pose proof (init_collapse k S w zeros x Hz) as E.
split; [ exact E | ].
intros f Hf. rewrite E in Hf. injection Hf as <-. split; reflexivity.
Qed.

(** X3. A form that the constructor returned is rebuilt by the constructor
    from its own weight, Gram matrix, terms and lattice. *)
Theorem init_rebuilds (k : Q) (S : Matrix) (terms : list WeilRepModularForm)
  (w : WeilRep) (f : WeilRepQuasiModularForm) :
  Quasi.__init__ k S terms w = Ok f ->
  Quasi.__init__ (weight (q_form f)) (gram_matrix (q_form f)) (Quasi._terms f)
                 (weilrep (q_form f)) = Ok f.
Proof.
intros Hf. destruct terms as [| t0 rest] eqn:Et; [ discriminate Hf | ].
rewrite <- Et in *.
assert (Hne : terms <> []) by (rewrite Et; discriminate).
unfold Quasi.__init__ in Hf. rewrite (last_item_nth terms t0 Hne) in Hf.
cbn [bind] in Hf.
destruct (Nat.ltb_spec (first_index form_bool terms) (List.length terms - 1))
  as [Hj | Hj]; injection Hf as <-; cbn [q_form weight gram_matrix weilrep].
- unfold Quasi._terms. cbn [q_attrs].
  set (j := first_index form_bool terms) in *.
  assert (Hsk : skipn j terms = nth j terms t0 :: skipn (Datatypes.S j) terms)
    by (apply skipn_nth_cons; lia).
  assert (Hlen : List.length (skipn j terms) = List.length terms - j)
    by apply length_skipn.
  unfold Quasi.__init__.
  rewrite (last_item_nth (skipn j terms) t0) by (rewrite Hsk; discriminate).
  cbn [bind]. rewrite Hlen, nth_skipn.
  replace (j + (List.length terms - j - 1)) with (List.length terms - 1) by lia.
  assert (Hfirst : first_index form_bool (skipn j terms) = 0).
  { rewrite Hsk. apply first_index_head. apply first_index_found. lia. }
  rewrite Hfirst.
  destruct (Nat.ltb_spec 0 (List.length terms - j - 1)); [ | lia ].
  cbn [skipn]. do 4 f_equal. lia.
- unfold Quasi._terms. cbn [q_attrs].
  set (x := mkForm k S _ w). unfold Quasi.__init__.
  cbn [q_form].
  rewrite (last_item_nth [x] x) by discriminate.
  cbn [bind List.length Nat.sub nth first_index fourier_expansion].
  destruct (form_bool x); reflexivity.
Qed.

End ConstructorTrimming.

(** ** Term-wise operations: negation, scalars *)
Section TermWise.
Context `{BaseForms}.

(** The constructor on the terms of a well-formed form after an operation
    that keeps zero and nonzero apart. *)
Lemma init_map_terms (op : WeilRepModularForm -> WeilRepModularForm)
  (f : WeilRepQuasiModularForm) :
  (forall x, form_bool (op x) = form_bool x) -> well_formed f ->
  exists h,
    Quasi.__init__ (weight (q_form f)) (gram_matrix (q_form f))
                   (map op (Quasi._terms f)) (weilrep (q_form f)) = Ok h /\
    well_formed h /\
    Quasi.depth h = Quasi.depth f /\
    (1 <= Quasi.depth f -> Quasi._terms h = map op (Quasi._terms f)) /\
    fourier_expansion (q_form h) =
    fourier_expansion (op (last (Quasi._terms f) (q_form f))) /\
    weight (q_form h) = weight (q_form f) /\
    gram_matrix (q_form h) = gram_matrix (q_form f).
Proof.
intros Hop Hwf.
destruct (Nat.eq_dec (Quasi.depth f) 0) as [Hr | Hr].
- assert (Et : Quasi._terms f = [q_form f]).
  { revert Hwf Hr. unfold well_formed, Quasi._terms, Quasi.depth.
    destruct (q_attrs f) as [[t r] |]; [ intros (? & _) ?; lia | reflexivity ]. }
  rewrite Et. cbn [map last].
  rewrite (init_collapse _ _ _ [] (op (q_form f)) (Forall_nil _)).
  eexists. split; [ reflexivity | ].
  split; [ exact I | ]. split; [ rewrite Hr; reflexivity | ].
  split; [ lia | ]. repeat split; reflexivity.
- destruct (well_formed_leading f Hwf ltac:(lia)) as (t0 & rest & Et & Ht0 & Hrest).
  rewrite Et. cbn [map].
  assert (Hne : map op rest <> []) by (destruct rest; [ simpl in Hrest; lia | discriminate ]).
  rewrite (init_trim _ _ _ [] (op t0) (map op rest) (Forall_nil _));
    [ | rewrite Hop; exact Ht0 | exact Hne ].
  eexists. split; [ reflexivity | ].
  split.
  { unfold well_formed. cbn [q_attrs]. rewrite length_map.
    split; [ lia | ]. split; [ simpl; rewrite length_map; lia | ].
    rewrite Hop. exact Ht0. }
  split; [ cbn; rewrite length_map; exact Hrest | ].
  split; [ intros _; reflexivity | ].
  split; [ | split; reflexivity ].
  cbn [q_form fourier_expansion]. f_equal.
  assert (Hl : forall (l : list WeilRepModularForm) a b, l <> [] ->
                 last (map op l) a = op (last l b)).
  { clear. induction l as [| z l IH]; intros a b Hl; [ congruence | ].
    destruct l as [| z' l]; [ reflexivity | ].
    change (last (map op (z :: z' :: l)) a) with (last (map op (z' :: l)) a).
    change (last (z :: z' :: l) b) with (last (z' :: l) b).
    apply IH. discriminate. }
  destruct rest as [| y rest]; [ simpl in Hrest; lia | ].
  change (last (t0 :: y :: rest) (q_form f)) with (last (y :: rest) (q_form f)).
  apply Hl. discriminate.
Qed.

(** X4. Negation negates every term and keeps weight, Gram matrix and
    depth, given that the negative of a base form is zero exactly when the
    form is. *)
Theorem neg_terms (f : WeilRepQuasiModularForm) :
  (forall x, form_bool (form_neg x) = form_bool x) -> well_formed f ->
  exists h,
    Quasi.__neg__ f = Ok h /\
    Quasi.depth h = Quasi.depth f /\
    (1 <= Quasi.depth f -> Quasi._terms h = map form_neg (Quasi._terms f)) /\
    fourier_expansion (q_form h) =
    fourier_expansion (form_neg (last (Quasi._terms f) (q_form f))) /\
    weight (q_form h) = weight (q_form f) /\
    gram_matrix (q_form h) = gram_matrix (q_form f).
Proof.
intros Hneg Hwf.
destruct (init_map_terms form_neg f Hneg Hwf) as (h & Hh & _ & Hd & Ht & Hfe & Hw & HS).
exists h. unfold Quasi.__neg__. repeat split; assumption.
Qed.

(** X5. Multiplication by a nonzero rational scales every term and keeps
    the depth; multiplication by zero gives a form without term list, of
    depth 0.  The base library is assumed to scale a form to zero exactly
    when the scalar or the form is zero. *)
Theorem scalar_multiple (f : WeilRepQuasiModularForm) (c : Q) :
  (forall c x, ~ (c == 0)%Q -> form_bool (form_smul c x) = form_bool x) ->
  (forall c x, (c == 0)%Q -> form_bool (form_smul c x) = false) ->
  well_formed f ->
  exists h,
    Quasi.__mul__ f (Scalar c) = Ok h /\
    weight (q_form h) = weight (q_form f) /\
    gram_matrix (q_form h) = gram_matrix (q_form f) /\
    fourier_expansion (q_form h) =
    fourier_expansion (form_smul c (last (Quasi._terms f) (q_form f))) /\
    (~ (c == 0)%Q ->
     Quasi.depth h = Quasi.depth f /\
     (1 <= Quasi.depth f -> Quasi._terms h = map (form_smul c) (Quasi._terms f))) /\
    ((c == 0)%Q -> Quasi.depth h = 0 /\ q_attrs h = None).
Proof.
intros Hnz Hz Hwf. unfold Quasi.__mul__.
destruct (Qeq_dec c 0) as [Hc | Hc].
- pose proof (well_formed_terms_length f Hwf) as Hlen.
  assert (Hne : Quasi._terms f <> [])
    by (intros E; rewrite E in Hlen; simpl in Hlen; lia).
  assert (E : map (form_smul c) (Quasi._terms f) =
              map (form_smul c) (removelast (Quasi._terms f)) ++
              [form_smul c (last (Quasi._terms f) (q_form f))]).
  { change [form_smul c (last (Quasi._terms f) (q_form f))]
      with (map (form_smul c) [last (Quasi._terms f) (q_form f)]).
    rewrite <- map_app, <- app_removelast_last by exact Hne. reflexivity. }
  rewrite E, init_collapse.
  + eexists. split; [ reflexivity | ].
    repeat split; try reflexivity; try contradiction.
  + apply Forall_forall. intros x Hin. apply in_map_iff in Hin.
    destruct Hin as (y & <- & _). apply Hz. exact Hc.
- destruct (init_map_terms (form_smul c) f (fun x => Hnz c x Hc) Hwf)
    as (h & Hh & _ & Hd & Ht & Hfe & Hw & HS).
  exists h. repeat split; try assumption; contradiction.
Qed.

(** X6. Division by a nonzero rational divides every term and keeps the
    depth, given that the base library divides a form to zero exactly when
    the form is zero. *)
Theorem scalar_quotient (f : WeilRepQuasiModularForm) (c : Q) :
  (forall c x, ~ (c == 0)%Q -> form_bool (form_div x c) = form_bool x) ->
  well_formed f -> ~ (c == 0)%Q ->
  exists h,
    Quasi.__div__ f c = Ok h /\
    Quasi.depth h = Quasi.depth f /\
    (1 <= Quasi.depth f ->
     Quasi._terms h = map (fun x => form_div x c) (Quasi._terms f)) /\
    fourier_expansion (q_form h) =
    fourier_expansion (form_div (last (Quasi._terms f) (q_form f)) c) /\
    weight (q_form h) = weight (q_form f) /\
    gram_matrix (q_form h) = gram_matrix (q_form f).
Proof.
intros Hdiv Hwf Hc. unfold Quasi.__div__.
destruct (Qeq_bool c 0) eqn:Ec; [ apply Qeq_bool_iff in Ec; contradiction | ].
destruct (init_map_terms (fun x => form_div x c) f (fun x => Hdiv c x Hc) Hwf)
  as (h & Hh & _ & Hd & Ht & Hfe & Hw & HS).
exists h. repeat split; assumption.
Qed.

End TermWise.

(** ** Sums and differences of compatible forms *)
Section AlignedSums.
Context `{BaseForms}.

Lemma padded_same (t : list WeilRepModularForm) (d i : nat) :
  padded t d d i = nth_error t i.
Proof.
unfold padded. rewrite Nat.sub_diag, Nat.sub_0_r.
destruct (Nat.ltb_spec i 0); [ lia | reflexivity ].
Qed.

Lemma padded_front (t : list WeilRepModularForm) (d m i : nat) :
  i < m - d -> padded t d m i = None.
Proof.
intros Hi. unfold padded. destruct (Nat.ltb_spec i (m - d)); [ reflexivity | lia ].
Qed.

Lemma padded_back (t : list WeilRepModularForm) (d m i : nat) :
  m - d <= i -> padded t d m i = nth_error t (i - (m - d)).
Proof.
intros Hi. unfold padded. destruct (Nat.ltb_spec i (m - d)); [ lia | reflexivity ].
Qed.

(** The list built when the left operand is not deeper: the extra leading
    terms of the right operand, passed through [pad], then the term-wise
    combinations. *)
Lemma aligned_left_shallow
  (op : WeilRepModularForm -> WeilRepModularForm -> WeilRepModularForm)
  (pad : WeilRepModularForm -> WeilRepModularForm)
  (t1 t2 : list WeilRepModularForm) (d1 d2 : nat) (z : WeilRepModularForm) :
  d1 <= d2 -> List.length t1 = d1 + 1 -> List.length t2 = d2 + 1 ->
  let X := map pad (firstn (d2 - d1) t2) ++
           map (fun i => op (nth i t1 z) (nth (i + (d2 - d1)) t2 z)) (seq 0 (d1 + 1)) in
  List.length X = d2 + 1 /\
  forall i, i <= d2 ->
    nth_error X i =
    match padded t1 d1 d2 i, padded t2 d2 d2 i with
    | Some x, Some y => Some (op x y)
    | Some x, None => Some x
    | None, Some y => Some (pad y)
    | None, None => None
    end.
Proof.
intros Hd Hl1 Hl2 X.
assert (Hpre : List.length (map pad (firstn (d2 - d1) t2)) = d2 - d1)
  by (rewrite length_map, length_firstn; lia).
split; [ unfold X; rewrite length_app, Hpre, length_map, length_seq; lia | ].
intros i Hi. rewrite padded_same, (nth_error_nth' t2 z) by lia.
unfold X. destruct (Nat.ltb_spec i (d2 - d1)).
- rewrite padded_front by lia.
  rewrite nth_error_app1 by lia.
  rewrite nth_error_map, nth_error_firstn.
  destruct (Nat.ltb_spec i (d2 - d1)); [ | lia ].
  rewrite (nth_error_nth' t2 z) by lia. reflexivity.
- rewrite padded_back by lia.
  rewrite nth_error_app2 by lia. rewrite Hpre.
  rewrite (nth_error_map_seq _ 0 (d1 + 1) (i - (d2 - d1))) by lia.
  rewrite (nth_error_nth' t1 z) by lia. cbn [Nat.add].
  replace (i - (d2 - d1) + (d2 - d1)) with i by lia. reflexivity.
Qed.

(** The list built when the left operand is deeper. *)
Lemma aligned_left_deep
  (op : WeilRepModularForm -> WeilRepModularForm -> WeilRepModularForm)
  (pad : WeilRepModularForm -> WeilRepModularForm)
  (t1 t2 : list WeilRepModularForm) (d1 d2 : nat) (z : WeilRepModularForm) :
  d2 < d1 -> List.length t1 = d1 + 1 -> List.length t2 = d2 + 1 ->
  let X := firstn (d1 - d2) t1 ++
           map (fun i => op (nth (i + (d1 - d2)) t1 z) (nth i t2 z)) (seq 0 (d2 + 1)) in
  List.length X = d1 + 1 /\
  forall i, i <= d1 ->
    nth_error X i =
    match padded t1 d1 d1 i, padded t2 d2 d1 i with
    | Some x, Some y => Some (op x y)
    | Some x, None => Some x
    | None, Some y => Some (pad y)
    | None, None => None
    end.
Proof.
intros Hd Hl1 Hl2 X.
assert (Hpre : List.length (firstn (d1 - d2) t1) = d1 - d2)
  by (rewrite length_firstn; lia).
split; [ unfold X; rewrite length_app, Hpre, length_map, length_seq; lia | ].
intros i Hi. rewrite padded_same, (nth_error_nth' t1 z) by lia.
unfold X. destruct (Nat.ltb_spec i (d1 - d2)).
- rewrite padded_front by lia.
  rewrite nth_error_app1 by lia. rewrite nth_error_firstn.
  destruct (Nat.ltb_spec i (d1 - d2)); [ | lia ].
  rewrite (nth_error_nth' t1 z) by lia. reflexivity.
- rewrite padded_back by lia.
  rewrite nth_error_app2 by lia. rewrite Hpre.
  rewrite (nth_error_map_seq _ 0 (d2 + 1) (i - (d1 - d2))) by lia.
  rewrite (nth_error_nth' t2 z) by lia. cbn [Nat.add].
  replace (i - (d1 - d2) + (d1 - d2)) with i by lia. reflexivity.
Qed.

(** The two term-wise loops of [__add__] and [__sub__] succeed on
    well-formed operands. *)
Lemma zip_left_shallow
  (op : WeilRepModularForm -> WeilRepModularForm -> WeilRepModularForm)
  (t1 t2 : list WeilRepModularForm) (d1 j : nat) (z : WeilRepModularForm) :
  List.length t1 = d1 + 1 -> d1 + j < List.length t2 ->
  mapM (fun i => x <- item t1 i ;; y <- item t2 (i + j) ;; Ok (op x y))
       (seq 0 (d1 + 1))
  = Ok (map (fun i => op (nth i t1 z) (nth (i + j) t2 z)) (seq 0 (d1 + 1))).
Proof.
intros Hl1 Hl2. apply mapM_ok. intros i Hi. apply in_seq in Hi.
rewrite (item_nth t1 i z), (item_nth t2 (i + j) z) by lia. reflexivity.
Qed.

Lemma zip_left_deep
  (op : WeilRepModularForm -> WeilRepModularForm -> WeilRepModularForm)
  (t1 t2 : list WeilRepModularForm) (d2 j : nat) (z : WeilRepModularForm) :
  List.length t2 = d2 + 1 -> d2 + j < List.length t1 ->
  mapM (fun i => x <- item t1 (i + j) ;; y <- item t2 i ;; Ok (op x y))
       (seq 0 (d2 + 1))
  = Ok (map (fun i => op (nth (i + j) t1 z) (nth i t2 z)) (seq 0 (d2 + 1))).
Proof.
intros Hl2 Hl1. apply mapM_ok. intros i Hi. apply in_seq in Hi.
rewrite (item_nth t1 (i + j) z), (item_nth t2 i z) by lia. reflexivity.
Qed.

(** X7. For well-formed forms with the same Gram matrix and weight and a
    nonzero right operand, [f + g] is built by the constructor from
    [max(d1, d2) + 1] entries: the shallower term list is read with zeros in
    front, and each entry is the sum of the two terms at that place, or the
    only term there is.  The depth of the sum is at most [max(d1, d2)], and
    equal to it when the depths differ. *)
Theorem add_aligned (f g : WeilRepQuasiModularForm) :
  well_formed f -> well_formed g ->
  form_bool (q_form g) = true ->
  gram_matrix (q_form f) = gram_matrix (q_form g) ->
  (weight (q_form f) == weight (q_form g))%Q ->
  let d1 := Quasi.depth f in
  let d2 := Quasi.depth g in
  let m := Nat.max d1 d2 in
  exists X h,
    Quasi.__add__ f (Form g) = Ok h /\
    Quasi.__init__ (weight (q_form f)) (gram_matrix (q_form f)) X
                   (weilrep (q_form f)) = Ok h /\
    List.length X = m + 1 /\
    (forall i, i <= m ->
       nth_error X i = sum_entry (padded (Quasi._terms f) d1 m i)
                                 (padded (Quasi._terms g) d2 m i)) /\
    Quasi.depth h <= m /\
    (d1 <> d2 -> Quasi.depth h = m).
Proof.
intros Hf Hg Hgt HS Hk d1 d2 m.
pose proof (well_formed_terms_length f Hf) as Hl1. fold d1 in Hl1.
pose proof (well_formed_terms_length g Hg) as Hl2. fold d2 in Hl2.
set (z := q_form f).
unfold Quasi.__add__. cbn [Quasi.truth]. rewrite Hgt. cbn [negb].
destruct (Matrix_eq_dec (gram_matrix (q_form f)) (gram_matrix (q_form g)));
  [ | contradiction ].
apply Qeq_bool_iff in Hk. rewrite Hk. fold d1 d2.
destruct (Nat.leb_spec d1 d2) as [Hd | Hd].
- rewrite (zip_left_shallow form_add _ _ d1 (d2 - d1) z) by lia. cbn [bind].
  destruct (aligned_left_shallow form_add (fun x => x) (Quasi._terms f)
              (Quasi._terms g) d1 d2 z Hd Hl1 Hl2) as [HlenX HX].
  rewrite map_id in HlenX, HX.
  set (X := firstn (d2 - d1) (Quasi._terms g) ++ _) in *.
  destruct (init_ok (weight (q_form f)) (gram_matrix (q_form f)) X
                    (weilrep (q_form f)))
    as (h & Hh & _ & _ & _ & Hdh & _).
  { intros E. rewrite E in HlenX. simpl in HlenX. lia. }
  exists X, h. replace m with d2 by (unfold m; lia).
  split; [ exact Hh | ]. split; [ exact Hh | ]. split; [ exact HlenX | ].
  split.
  { intros i Hi. rewrite (HX i Hi). unfold sum_entry.
    destruct (padded (Quasi._terms f) d1 d2 i), (padded (Quasi._terms g) d2 d2 i);
      reflexivity. }
  rewrite Hdh.
  split; [ pose proof (trimmed_depth_le X); lia | ].
  intros Hne.
  destruct (well_formed_leading g Hg ltac:(fold d2; lia)) as (u0 & rest & Et & Hu0 & _).
  specialize (HX 0 ltac:(lia)).
  rewrite padded_same, padded_front in HX by lia.
  rewrite Et in HX. cbn [nth_error] in HX.
  destruct X as [| x0 Xrest]; [ discriminate HX | ].
  cbn [nth_error] in HX. injection HX as ->.
  rewrite trimmed_depth_leading by exact Hu0. simpl in HlenX. lia.
- rewrite (zip_left_deep form_add _ _ d2 (d1 - d2) z) by lia. cbn [bind].
  destruct (aligned_left_deep form_add (fun x => x) (Quasi._terms f)
              (Quasi._terms g) d1 d2 z Hd Hl1 Hl2) as [HlenX HX].
  set (X := firstn (d1 - d2) (Quasi._terms f) ++ _) in *.
  destruct (init_ok (weight (q_form f)) (gram_matrix (q_form f)) X
                    (weilrep (q_form f)))
    as (h & Hh & _ & _ & _ & Hdh & _).
  { intros E. rewrite E in HlenX. simpl in HlenX. lia. }
  exists X, h. replace m with d1 by (unfold m; lia).
  split; [ exact Hh | ]. split; [ exact Hh | ]. split; [ exact HlenX | ].
  split.
  { intros i Hi. rewrite (HX i Hi). unfold sum_entry.
    destruct (padded (Quasi._terms f) d1 d1 i), (padded (Quasi._terms g) d2 d1 i);
      reflexivity. }
  rewrite Hdh.
  split; [ pose proof (trimmed_depth_le X); lia | ].
  intros Hne.
  destruct (well_formed_leading f Hf ltac:(fold d1; lia)) as (t0 & rest & Et & Ht0 & _).
  specialize (HX 0 ltac:(lia)).
  rewrite padded_same, padded_front in HX by lia.
  rewrite Et in HX. cbn [nth_error] in HX.
  destruct X as [| x0 Xrest]; [ discriminate HX | ].
  cbn [nth_error] in HX. injection HX as ->.
  rewrite trimmed_depth_leading by exact Ht0. simpl in HlenX. lia.
Qed.

(** X8. Under the same conditions [f - g] is built from the same aligned
    entries, with differences in place of sums and the negatives of the
    extra leading terms of [g] when [g] is deeper.  The depth is at most
    [max(d1, d2)], and equal to it when the depths differ (when [g] is
    deeper this uses that the negative of a nonzero base form is
    nonzero). *)
Theorem sub_aligned (f g : WeilRepQuasiModularForm) :
  (forall x, form_bool (form_neg x) = form_bool x) ->
  well_formed f -> well_formed g ->
  form_bool (q_form g) = true ->
  gram_matrix (q_form f) = gram_matrix (q_form g) ->
  (weight (q_form f) == weight (q_form g))%Q ->
  let d1 := Quasi.depth f in
  let d2 := Quasi.depth g in
  let m := Nat.max d1 d2 in
  exists X h,
    Quasi.__sub__ f (Form g) = Ok h /\
    Quasi.__init__ (weight (q_form f)) (gram_matrix (q_form f)) X
                   (weilrep (q_form f)) = Ok h /\
    List.length X = m + 1 /\
    (forall i, i <= m ->
       nth_error X i = difference_entry (padded (Quasi._terms f) d1 m i)
                                        (padded (Quasi._terms g) d2 m i)) /\
    Quasi.depth h <= m /\
    (d1 <> d2 -> Quasi.depth h = m).
Proof.
intros Hneg Hf Hg Hgt HS Hk d1 d2 m.
pose proof (well_formed_terms_length f Hf) as Hl1. fold d1 in Hl1.
pose proof (well_formed_terms_length g Hg) as Hl2. fold d2 in Hl2.
set (z := q_form f).
unfold Quasi.__sub__. cbn [Quasi.truth]. rewrite Hgt. cbn [negb].
destruct (Matrix_eq_dec (gram_matrix (q_form f)) (gram_matrix (q_form g)));
  [ | contradiction ].
apply Qeq_bool_iff in Hk. rewrite Hk. fold d1 d2.
destruct (Nat.leb_spec d1 d2) as [Hd | Hd].
- rewrite (zip_left_shallow form_sub _ _ d1 (d2 - d1) z) by lia. cbn [bind].
  destruct (aligned_left_shallow form_sub form_neg (Quasi._terms f)
              (Quasi._terms g) d1 d2 z Hd Hl1 Hl2) as [HlenX HX].
  set (X := map form_neg (firstn (d2 - d1) (Quasi._terms g)) ++ _) in *.
  destruct (init_ok (weight (q_form f)) (gram_matrix (q_form f)) X
                    (weilrep (q_form f)))
    as (h & Hh & _ & _ & _ & Hdh & _).
  { intros E. rewrite E in HlenX. simpl in HlenX. lia. }
  exists X, h. replace m with d2 by (unfold m; lia).
  split; [ exact Hh | ]. split; [ exact Hh | ]. split; [ exact HlenX | ].
  split.
  { intros i Hi. rewrite (HX i Hi). unfold difference_entry.
    destruct (padded (Quasi._terms f) d1 d2 i), (padded (Quasi._terms g) d2 d2 i);
      reflexivity. }
  rewrite Hdh.
  split; [ pose proof (trimmed_depth_le X); lia | ].
  intros Hne.
  destruct (well_formed_leading g Hg ltac:(fold d2; lia)) as (u0 & rest & Et & Hu0 & _).
  specialize (HX 0 ltac:(lia)).
  rewrite padded_same, padded_front in HX by lia.
  rewrite Et in HX. cbn [nth_error] in HX.
  destruct X as [| x0 Xrest]; [ discriminate HX | ].
  cbn [nth_error] in HX. injection HX as ->.
  rewrite trimmed_depth_leading by (rewrite Hneg; exact Hu0).
  simpl in HlenX. lia.
- rewrite (zip_left_deep form_sub _ _ d2 (d1 - d2) z) by lia. cbn [bind].
  destruct (aligned_left_deep form_sub form_neg (Quasi._terms f)
              (Quasi._terms g) d1 d2 z Hd Hl1 Hl2) as [HlenX HX].
  set (X := firstn (d1 - d2) (Quasi._terms f) ++ _) in *.
  destruct (init_ok (weight (q_form f)) (gram_matrix (q_form f)) X
                    (weilrep (q_form f)))
    as (h & Hh & _ & _ & _ & Hdh & _).
  { intros E. rewrite E in HlenX. simpl in HlenX. lia. }
  exists X, h. replace m with d1 by (unfold m; lia).
  split; [ exact Hh | ]. split; [ exact Hh | ]. split; [ exact HlenX | ].
  split.
  { intros i Hi. rewrite (HX i Hi). unfold difference_entry.
    destruct (padded (Quasi._terms f) d1 d1 i), (padded (Quasi._terms g) d2 d1 i);
      reflexivity. }
  rewrite Hdh.
  split; [ pose proof (trimmed_depth_le X); lia | ].
  intros Hne.
  destruct (well_formed_leading f Hf ltac:(fold d1; lia)) as (t0 & rest & Et & Ht0 & _).
  specialize (HX 0 ltac:(lia)).
  rewrite padded_same, padded_front in HX by lia.
  rewrite Et in HX. cbn [nth_error] in HX.
  destruct X as [| x0 Xrest]; [ discriminate HX | ].
  cbn [nth_error] in HX. injection HX as ->.
  rewrite trimmed_depth_leading by exact Ht0. simpl in HlenX. lia.
Qed.

(** X9. A form whose own expansion is nonzero, subtracted from itself,
    gives a form without term list, of depth 0, whatever its depth was,
    given that the base library finds [x - x] zero. *)
Theorem sub_self (f : WeilRepQuasiModularForm) :
  (forall x, form_bool (form_sub x x) = false) ->
  well_formed f -> form_bool (q_form f) = true ->
  exists h,
    Quasi.__sub__ f (Form f) = Ok h /\
    Quasi.depth h = 0 /\ q_attrs h = None /\
    weight (q_form h) = weight (q_form f) /\
    fourier_expansion (q_form h) =
    fourier_expansion (form_sub (last (Quasi._terms f) (q_form f))
                                (last (Quasi._terms f) (q_form f))).
Proof.
intros Hsub Hf Ht.
pose proof (well_formed_terms_length f Hf) as Hl.
set (z := q_form f). set (t := Quasi._terms f) in *. set (r := Quasi.depth f) in *.
unfold Quasi.__sub__. cbn [Quasi.truth]. rewrite Ht. cbn [negb].
destruct (Matrix_eq_dec (gram_matrix (q_form f)) (gram_matrix (q_form f)));
  [ | congruence ].
rewrite Qeq_bool_refl. fold r t. rewrite Nat.leb_refl.
rewrite (zip_left_shallow form_sub t t r (r - r) z) by lia. cbn [bind].
rewrite Nat.sub_diag. cbn [firstn map app].
rewrite Nat.add_1_r, seq_S, map_app. cbn [map Nat.add].
rewrite Nat.add_0_r.
rewrite init_collapse.
- eexists. split; [ reflexivity | ].
  split; [ reflexivity | ]. split; [ reflexivity | ]. split; [ reflexivity | ].
  cbn [q_form fourier_expansion].
  assert (El : nth r t z = last t z).
  { assert (Hne : t <> []) by (intros E; rewrite E in Hl; simpl in Hl; lia).
    pose proof (app_removelast_last z Hne) as E.
    rewrite E at 1. rewrite app_nth2; rewrite removelast_firstn_len, length_firstn;
      [ | lia ].
    replace (r - Nat.min (Nat.pred (List.length t)) (List.length t)) with 0 by lia.
    reflexivity. }
  rewrite El. reflexivity.
- apply Forall_forall. intros x Hin. apply in_map_iff in Hin.
  destruct Hin as (i & <- & _). rewrite Nat.add_0_r. apply Hsub.
Qed.

End AlignedSums.

(** ** Powers of well-formed forms *)
Section PowerBounds.
Context `{BaseForms}.

(** The tensor product of well-formed forms is a well-formed form. *)
Lemma mul_ok (f g : WeilRepQuasiModularForm) :
  well_formed f -> well_formed g ->
  exists h,
    Quasi.__mul__ f (Form g) = Ok h /\ well_formed h /\
    weight (q_form h) = (weight (q_form f) + weight (q_form g))%Q /\
    Quasi.depth h <= Quasi.depth f + Quasi.depth g.
Proof.
intros Hf Hg.
destruct (mul_unfold f g (q_form f) Hf Hg) as (X & Hmul & Hlen & _).
match type of Hmul with _ = Quasi.__init__ ?k ?S _ ?w =>
  destruct (init_ok k S X w) as (h & Hh & Hw & _ & _ & Hd & Hwf) end.
{ intros E. rewrite E in Hlen. simpl in Hlen. lia. }
exists h. rewrite Hmul. split; [ exact Hh | ]. split; [ exact Hwf | ].
split; [ exact Hw | ].
rewrite Hd. pose proof (trimmed_depth_le X). lia.
Qed.

(** X10. For every exponent [N >= 1] the power of a well-formed form is
    computed without error; it has weight [N * weight f] and depth at most
    [N * depth f]. *)
Theorem pow_weight_depth (f : WeilRepQuasiModularForm) (N : Z) :
  well_formed f -> (1 <= N)%Z ->
  exists g,
    Quasi.__pow__ f N = Ok g /\ well_formed g /\
    (weight (q_form g) == inject_Z N * weight (q_form f))%Q /\
    Quasi.depth g <= Z.to_nat N * Quasi.depth f.
Proof.
intros Hwf. remember (Z.to_nat N) as n eqn:En. revert N En.
induction n as [n IH] using lt_wf_ind. intros N En HN.
destruct (Z.eq_dec N 1) as [-> | Hne].
- exists f. rewrite pow_one. split; [ reflexivity | ]. split; [ exact Hwf | ].
  split; [ ring | simpl; lia ].
- assert (Hhalf : (1 <= N / 2 < N)%Z).
  { split; [ apply Z.div_le_lower_bound; lia | apply Z.div_lt; lia ]. }
  rewrite pow_split by lia.
  destruct (IH (Z.to_nat (N / 2)) ltac:(lia) (N / 2)%Z eq_refl ltac:(lia))
    as (x & Hx & Hwfx & Hwx & Hdx).
  destruct (IH (Z.to_nat (N - N / 2)) ltac:(lia) (N - N / 2)%Z eq_refl ltac:(lia))
    as (y & Hy & Hwfy & Hwy & Hdy).
  rewrite Hx, Hy. cbn [bind].
  destruct (mul_ok x y Hwfx Hwfy) as (h & Hh & Hwfh & Hwh & Hdh).
  exists h. split; [ exact Hh | ]. split; [ exact Hwfh | ].
  split.
  + rewrite Hwh, Hwx, Hwy.
    rewrite <- Qmult_plus_distr_l, <- inject_Z_plus.
    replace (N / 2 + (N - N / 2))%Z with N by lia. reflexivity.
  + assert (Z.to_nat N = Z.to_nat (N / 2) + Z.to_nat (N - N / 2)) by lia.
    nia.
Qed.

End PowerBounds.

(** ** The depth of a derivative *)
Section DerivativeRaisesDepth.
Context `{BaseForms}.

(** X11. When the weight differs from the depth [r] and the form is not a
    zero form of depth 0, the derivative has depth exactly [r + 1]: its
    leading term is the nonzero scalar [r - k] times the nonzero leading
    term. *)
Theorem derivative_raises_depth (f : WeilRepQuasiModularForm) :
  (forall c x, ~ (c == 0)%Q -> form_bool (form_smul c x) = form_bool x) ->
  well_formed f -> fourier_expansion (q_form f) <> [] ->
  ~ (weight (q_form f) == inject_Z (Z.of_nat (Quasi.depth f)))%Q ->
  (Quasi.depth f = 0 -> form_bool (q_form f) = true) ->
  exists g, Quasi.derivative f = Ok g /\
            Quasi.depth g = Quasi.depth f + 1 /\
            weight (q_form g) = (weight (q_form f) + 2)%Q.
Proof.
intros Hsmul Hwf Hfe Hk Hnz.
pose proof (well_formed_terms_length f Hwf) as Hlen.
assert (Hlead : exists t0 rest, Quasi._terms f = t0 :: rest /\ form_bool t0 = true).
{ destruct (Nat.eq_dec (Quasi.depth f) 0) as [Hr | Hr].
  - exists (q_form f), []. split; [ | apply Hnz; exact Hr ].
    revert Hwf Hr. unfold well_formed, Quasi._terms, Quasi.depth.
    destruct (q_attrs f) as [[t r] |]; [ intros (? & _) ?; lia | reflexivity ].
  - destruct (well_formed_leading f Hwf ltac:(lia)) as (t0 & rest & Et & Ht0 & _).
    exists t0, rest. split; assumption. }
destruct Hlead as (t0 & rest & Et & Ht0).
pose proof (derivative_unfold f t0 Hwf Hfe) as Hd. cbv zeta in Hd.
rewrite Et in Hd. cbn [nth app] in Hd.
match type of Hd with _ = Quasi.__init__ _ _ (?x :: ?l) _ =>
  set (x0 := x) in *; set (Xrest := l) in * end.
assert (Hx0 : form_bool x0 = true).
{ unfold x0. rewrite Hsmul; [ exact Ht0 | ].
  intros E. apply Hk.
  rewrite <- (Qplus_0_l (weight (q_form f))), <- E. ring. }
assert (HlenX : List.length Xrest = Quasi.depth f + 1).
{ unfold Xrest. rewrite length_app, length_map, length_seq. simpl. lia. }
destruct (init_ok (weight (q_form f) + 2)%Q (gram_matrix (q_form f)) (x0 :: Xrest)
                  (weilrep (q_form f)))
  as (g & Hg & Hw & _ & _ & Hdg & _); [ discriminate | ].
exists g. rewrite Hd. split; [ exact Hg | ]. split; [ | exact Hw ].
rewrite Hdg, trimmed_depth_leading by exact Hx0. exact HlenX.
Qed.

End DerivativeRaisesDepth.

(** ** The entries of a completion *)
Section CompletionEntries.
Context `{BaseForms}.

Hypothesis smul_truth :
  forall c x, ~ (c == 0)%Q -> form_bool (form_smul c x) = form_bool x.
Hypothesis div_truth :
  forall c x, ~ (c == 0)%Q -> form_bool (form_div x c) = form_bool x.

(** The list that [completion] wraps. *)
Lemma completion_list (f : WeilRepQuasiModularForm) :
  well_formed f ->
  exists X,
    AlmostHolomorphic.completion f =
    Ok (mkCompletion (weight (q_form f)) (gram_matrix (q_form f)) X
                     (weilrep (q_form f)) (Quasi.depth f)) /\
    completion_invariant f (Quasi.depth f) (Quasi.depth f) X.
Proof.
intros Hwf. set (r := Quasi.depth f).
destruct (completion_loop_from smul_truth div_truth f r 0 r [f])
  as (X & Hloop & Hinv); [ lia | | ].
{ split; [ reflexivity | ]. split; [ reflexivity | ]. split.
  - exists f. split; [ reflexivity | ]. split; [ exact Hwf | unfold r; lia ].
  - intros i Hi. lia. }
exists X. split; [ | exact Hinv ].
destruct Hinv as (_ & Hfirst & _).
unfold AlmostHolomorphic.completion, AlmostHolomorphic.completion_loop.
fold r. unfold range. replace (Z.to_nat (Z.of_nat r - 0)) with r by lia.
change (factorial 0) with 1%Z in Hloop. cbv zeta in Hloop. rewrite Hloop.
cbn [bind fst]. unfold AlmostHolomorphic.__init__.
rewrite (item_Some _ _ _ Hfirst). reflexivity.
Qed.

(** X12. In the completion of a form of depth [r], the entry of index [i]
    is a form of depth [r - i]: every shift lowers the depth by one and the
    division keeps it, so the last entry has depth 0. *)
Theorem completion_entry_depths (f : WeilRepQuasiModularForm) :
  well_formed f ->
  exists h,
    AlmostHolomorphic.completion f = Ok h /\
    ah_depth h = Quasi.depth f /\
    List.length (ah_list h) = Quasi.depth f + 1 /\
    forall i x, nth_error (ah_list h) i = Some x ->
                well_formed x /\ Quasi.depth x = Quasi.depth f - i.
Proof.
intros Hwf. destruct (completion_list f Hwf) as (X & Hc & Hlen & Hfirst & _ & Hsteps).
eexists. split; [ exact Hc | ]. cbn [ah_depth ah_list].
split; [ reflexivity | ]. split; [ exact Hlen | ].
induction i as [| i IH]; intros x Hx.
- rewrite Hfirst in Hx. injection Hx as <-. split; [ exact Hwf | lia ].
- assert (Hi : Datatypes.S i < List.length X)
    by (apply nth_error_Some; rewrite Hx; discriminate).
  destruct (Hsteps (Datatypes.S i) ltac:(lia)) as (prev & s & cur & Hp & Hs & Hd & Hcur).
  replace (Datatypes.S i - 1) with i in Hp by lia.
  destruct (IH prev Hp) as [Hwfp Hdp].
  destruct (shift_spec prev smul_truth Hwfp) as [_ Hshift].
  destruct (Hshift ltac:(lia)) as (Y & s' & Hs' & _ & _ & Hds & Hwfs & _).
  rewrite Hs in Hs'. injection Hs' as <-.
  destruct (div_spec div_truth s (inject_Z (factorial (Datatypes.S i))) Hwfs)
    as (c & Hc' & Hwfc & Hdc).
  { apply inject_Z_nonzero. pose proof (factorial_pos (Datatypes.S i)). lia. }
  rewrite Hd in Hc'. injection Hc' as <-.
  rewrite Hcur in Hx. injection Hx as <-.
  split; [ exact Hwfc | lia ].
Qed.

End CompletionEntries.

(** ** Lazy arithmetic on completions *)
Section LazyArithmetic.
Context `{BaseForms}.

(** The loop of [completion] only appends: the first entry stays. *)
Lemma completion_loop_head (f : WeilRepQuasiModularForm) (l : list Z) :
  forall X j X' j',
  nth_error X 0 = Some f ->
  foldM (fun '(X, j) i =>
           let j := (j * (i + 1))%Z in
           last <- last_item X ;;
           s <- Quasi.shift last ;;
           x <- Quasi.__div__ s (inject_Z j) ;;
           Ok (X ++ [x], j)) l (X, j) = Ok (X', j') ->
  nth_error X' 0 = Some f.
Proof.
induction l as [| i l IH]; intros X j X' j' Hhead Hrun; cbn [foldM] in Hrun.
- injection Hrun as <- _. exact Hhead.
- destruct (last_item X) as [last | e]; cbn [bind] in Hrun; [ | discriminate Hrun ].
  destruct (Quasi.shift last) as [s | e]; cbn [bind] in Hrun; [ | discriminate Hrun ].
  destruct (Quasi.__div__ s (inject_Z (j * (i + 1)))) as [x | e];
    cbn [bind] in Hrun; [ | discriminate Hrun ].
  refine (IH _ _ _ _ _ Hrun).
  destruct X as [| x0 X]; [ discriminate Hhead | exact Hhead ].
Qed.

(** Whenever [completion] returns, entry 0 of the result is the form. *)
Lemma completion_head (f : WeilRepQuasiModularForm)
  (h : WeilRepAlmostHolomorphicModularForm) :
  AlmostHolomorphic.completion f = Ok h ->
  AlmostHolomorphic.__getitem__ h 0 = Ok f.
Proof.
unfold AlmostHolomorphic.completion, AlmostHolomorphic.completion_loop.
intros Hc.
destruct (foldM _ _ _) as [[X j] | e] eqn:Hloop; cbn [bind fst] in Hc;
  [ | discriminate Hc ].
cbv zeta in Hloop.
pose proof (completion_loop_head f _ [f] 1%Z X j eq_refl Hloop) as Hhead.
unfold AlmostHolomorphic.__init__ in Hc. rewrite (item_Some _ _ _ Hhead) in Hc.
cbn [bind] in Hc. injection Hc as <-.
unfold AlmostHolomorphic.__getitem__. cbn [ah_list].
destruct X as [| x0 X]; [ discriminate Hhead | ].
cbn [nth_error] in Hhead. injection Hhead as ->. reflexivity.
Qed.

(** X13. The operators of a completion act on the form it completes: for
    [h = completion(f)], negating, dividing, raising to a power,
    differentiating or shifting [h] gives the completion of the same
    operation on [f] (or its error), and the sum and difference of two
    completions are the completions of the sum and difference of the
    forms. *)
Theorem lazy_arithmetic (f g : WeilRepQuasiModularForm)
  (h k : WeilRepAlmostHolomorphicModularForm) :
  AlmostHolomorphic.completion f = Ok h ->
  AlmostHolomorphic.completion g = Ok k ->
  AlmostHolomorphic.__neg__ h =
    (z <- Quasi.__neg__ f ;; AlmostHolomorphic.completion z) /\
  (forall n, AlmostHolomorphic.__div__ h n =
    (z <- Quasi.__div__ f n ;; AlmostHolomorphic.completion z)) /\
  (forall n, AlmostHolomorphic.__pow__ h n =
    (z <- Quasi.__pow__ f n ;; AlmostHolomorphic.completion z)) /\
  AlmostHolomorphic.derivative h =
    (z <- Quasi.derivative f ;; AlmostHolomorphic.completion z) /\
  AlmostHolomorphic.shift h =
    (z <- Quasi.shift f ;; AlmostHolomorphic.completion z) /\
  AlmostHolomorphic.__add__ h (LCompletion k) =
    (z <- Quasi.__add__ f (Form g) ;; AlmostHolomorphic.completion z) /\
  AlmostHolomorphic.__sub__ h (LCompletion k) =
    (z <- Quasi.__sub__ f (Form g) ;; AlmostHolomorphic.completion z).
Proof.
intros Hh Hk.
pose proof (completion_head f h Hh) as Hf.
pose proof (completion_head g k Hk) as Hg.
unfold AlmostHolomorphic.__neg__, AlmostHolomorphic.__div__,
  AlmostHolomorphic.__pow__, AlmostHolomorphic.derivative,
  AlmostHolomorphic.shift, AlmostHolomorphic.__add__, AlmostHolomorphic.__sub__.
cbn [AlmostHolomorphic.truth negb]. rewrite Hf, Hg. cbn [bind].
repeat split; reflexivity.
Qed.

End LazyArithmetic.

(** ** The string form of a completion *)
Section DisplayProperties.
Context `{Lattice}.
Variable str : WeilRepQuasiModularForm -> string.

Lemma append_associative (a b c : string) :
  ((a ++ b) ++ c = a ++ (b ++ c))%string.
Proof.
induction a as [| ch a IH]; cbn [append]; [ reflexivity | ].
rewrite IH. reflexivity.
Qed.

Lemma append_empty (a : string) : (a ++ "" = a)%string.
Proof.
induction a as [| ch a IH]; cbn [append]; [ reflexivity | ].
rewrite IH. reflexivity.
Qed.

(** The loop from an index [a >= 1] on appends one label and one block per
    entry. *)
Lemma repr_loop_from (l : list WeilRepQuasiModularForm) :
  forall a s t, 1 <= a ->
  fold_left (repr_step str) (combine (seq a (List.length l)) l) (s, t) =
  ((s ++ joined (map summand_label (seq a (List.length l))))%string,
   (t ++ joined (map (fun ix => (rule ++ entry_text str (fst ix) (snd ix))%string)
                     (combine (seq a (List.length l)) l)))%string).
Proof.
induction l as [| x l IH]; intros a s t Ha.
- cbn. rewrite !append_empty. reflexivity.
- cbn [List.length seq combine fold_left map joined fold_right fst snd].
  unfold repr_step at 2.
  destruct (Nat.leb_spec 1 a); [ | lia ].
  rewrite IH by lia. unfold joined.
  rewrite !append_associative. reflexivity.
Qed.

(** X14. The string of a completion with entries [x0 :: rest] is the
    header, one label [" + f_i * (4 pi y)^(-i)"] for every [i >= 1], the
    line [", where:"], and the strings of the entries, each after the first
    one behind a rule of 80 dashes; it is stored, and a stored string is
    returned as it is.  A completion without entries raises. *)
Theorem repr_closed_form (self : WeilRepAlmostHolomorphicModularForm) :
  (forall x0 rest, ah_list self = x0 :: rest ->
     let n := List.length rest in
     let v := ((("Almost holomorphic modular form f_0" ++
                 joined (map summand_label (seq 1 n))) ++ where_line) ++
               (str x0 ++
                joined (map (fun ix => (rule ++ entry_text str (fst ix) (snd ix))%string)
                            (combine (seq 1 n) rest))))%string in
     __repr__ str None self = Ok (v, Some v)) /\
  (forall v, __repr__ str (Some v) self = Ok (v, Some v)) /\
  (ah_list self = [] -> __repr__ str None self = Raise IndexError).
Proof.
split; [ | split ].
- intros x0 rest E n v. unfold __repr__. rewrite E.
  cbn [item nth_error bind List.length seq combine fold_left].
  change (repr_step str ("Almost holomorphic modular form f_0"%string, str x0) (0, x0))
    with ("Almost holomorphic modular form f_0"%string, str x0).
  rewrite repr_loop_from by lia. cbn [fst snd]. reflexivity.
- intros v. reflexivity.
- intros E. unfold __repr__. rewrite E. reflexivity.
Qed.

End DisplayProperties.

(** ** The series derivative beyond the precision of its argument *)
Section PrecisionExtension.

(** X15. For a nonzero component series whose stored coefficients lie
    below its precision and an offset with negative floor, the result of
    [a] has a larger precision than its argument, and it reports the
    coefficients from the old precision up to the new one as zero, although
    the argument does not know its own coefficients there. *)
Theorem derivative_extends_precision (offset : Q) (f : series) (n : Z) :
  series_wf f -> is_zero f = false ->
  (prec f <= n < prec f - Qfloor offset)%Z ->
  getitem f n = None /\ getitem (a offset f) n = Some 0%Q /\
  (prec f < prec (a offset f))%Z.
Proof.
intros Hwf Hz [Hlo Hhi]. unfold series_wf in Hwf.
assert (Hval : (start f <= valuation f <= prec f)%Z).
{ unfold valuation. rewrite Hz.
  pose proof (first_index_le nonzeroQ (coeffs f)). lia. }
split; [ | split ].
- unfold getitem.
  destruct (Z.ltb_spec n (start f)); [ lia | ].
  destruct (nth_error (coeffs f) (Z.to_nat (n - start f))) eqn:E.
  + assert (Z.to_nat (n - start f) < List.length (coeffs f))
      by (apply nth_error_Some; rewrite E; discriminate).
    lia.
  + destruct (Z.ltb_spec n (prec f)); [ lia | reflexivity ].
- unfold a. rewrite Hz. unfold getitem, add_bigoh. cbn [start coeffs prec].
  destruct (Z.ltb_spec n (valuation f)); [ lia | ].
  rewrite nth_error_firstn.
  destruct (Nat.ltb_spec (Z.to_nat (n - valuation f))
                         (Z.to_nat (prec f - Qfloor offset - valuation f)));
    [ | lia ].
  destruct (nth_error _ _) eqn:E.
  + assert (Hlt : Z.to_nat (n - valuation f) <
                  List.length (map (fun i => ((inject_Z i + offset) * coefficient f i)%Q)
                                   (range (valuation f) (prec f))))
      by (apply nth_error_Some; rewrite E; discriminate).
    unfold range in Hlt. rewrite !length_map, length_seq in Hlt. lia.
  + destruct (Z.ltb_spec n (prec f - Qfloor offset)); [ reflexivity | lia ].
- unfold a. rewrite Hz. cbn [add_bigoh prec]. lia.
Qed.

End PrecisionExtension.

(** ** The reference library: further laws *)
Section ReferenceFurtherLaws.
Import Reference.

Lemma Qeq_bool_opp (x : Q) : Qeq_bool (Qred (- x)) 0 = Qeq_bool x 0.
Proof.
apply Bool.eq_iff_eq_true. rewrite !Qeq_bool_iff, Qred_correct.
split; intros E.
- rewrite <- (Qopp_involutive x), E. reflexivity.
- rewrite E. reflexivity.
Qed.

Lemma is_zero_neg (f : series) : is_zero (series_neg f) = is_zero f.
Proof.
unfold is_zero, series_neg. cbn [coeffs].
induction (coeffs f) as [| x l IH]; cbn [map forallb]; [ reflexivity | ].
rewrite IH, Qeq_bool_opp. reflexivity.
Qed.

Lemma reference_neg_truth (x : WeilRepModularForm) :
  form_bool (form_neg x) = form_bool x.
Proof.
cbn [form_bool form_neg forms]. unfold nonzero, neg, map_components.
cbn [fourier_expansion].
induction (fourier_expansion x) as [| y l IH]; cbn [map existsb snd]; [ reflexivity | ].
rewrite IH, is_zero_neg. reflexivity.
Qed.

Lemma coefficient_neg (f : series) (i : Z) :
  (coefficient (series_neg f) i == - coefficient f i)%Q.
Proof.
unfold coefficient, series_neg. cbn [start coeffs].
destruct (i <? start f)%Z; [ reflexivity | ].
change 0%Q with ((fun c => Qred (- c)) 0%Q) at 1.
rewrite map_nth. apply Qred_correct.
Qed.

Lemma is_zero_sub_self (f : series) : is_zero (series_sub f f) = true.
Proof.
unfold is_zero, series_sub, series_add, tabulate. cbn [coeffs].
apply forallb_forall. intros c Hin. apply in_map_iff in Hin.
destruct Hin as (i & <- & _). apply Qeq_bool_iff.
rewrite Qred_correct, coefficient_neg. ring.
Qed.

Lemma reference_sub_self (x : WeilRepModularForm) :
  form_bool (form_sub x x) = false.
Proof.
cbn [form_bool form_sub forms]. unfold nonzero, sub, zip_components.
cbn [fourier_expansion].
induction (fourier_expansion x) as [| y l IH];
  cbn [combine map existsb fst snd]; [ reflexivity | ].
rewrite IH, is_zero_sub_self. reflexivity.
Qed.

(** The string of the completion of [e2], with the forms shown as [E2] and
    [-12], is laid out as in the docstring of [completion]. *)
Example e2_repr :
  __repr__ (fun x => if Nat.eqb (Quasi.depth x) 1 then "E2" else "-12")%string
           None e2_completed
  = Ok (("Almost holomorphic modular form f_0 + f_1 * (4 pi y)^(-1), where:"
         ++ newline ++ "f_0 =" ++ newline ++ "E2" ++ newline ++ times "-" 80
         ++ newline ++ "f_1 =" ++ newline ++ "-12")%string,
        Some ("Almost holomorphic modular form f_0 + f_1 * (4 pi y)^(-1), where:"
         ++ newline ++ "f_0 =" ++ newline ++ "E2" ++ newline ++ times "-" 80
         ++ newline ++ "f_1 =" ++ newline ++ "-12")%string).
Proof. vm_compute. reflexivity. Qed.

End ReferenceFurtherLaws.

(** ** The further statements at concrete forms *)
Section FurtherInstances.
Import Reference.

Lemma plain_two_well_formed : well_formed plain_two.
Proof. exact I. Qed.

(** X1 at [[0; -12; E2]]. *)
Lemma init_trims_leading_zeros_witness :
  Forall (fun x => form_bool x = false) [zero_four] /\
  form_bool (scalar_form 0 minus12) = true /\
  Quasi.__init__ (2 # 1) [] ([zero_four] ++ scalar_form 0 minus12 ::
                              [scalar_form (2 # 1) E2]) [] = Ok e2.
Proof.
assert (Hz : Forall (fun x : WeilRepModularForm => form_bool x = false) [zero_four])
  by (constructor; [ reflexivity | constructor ]).
assert (Ht : form_bool (scalar_form 0 minus12) = true) by reflexivity.
split; [ exact Hz | ]. split; [ exact Ht | ].
exact (init_trims_leading_zeros (2 # 1)%Q [] [] [zero_four] (scalar_form 0 minus12)
         [scalar_form (2 # 1) E2] Hz Ht ltac:(discriminate)).
Defined.

(** X2 at [[0; E2]]. *)
Lemma init_collapses_witness :
  Forall (fun x => form_bool x = false) [zero_four] /\
  Quasi.__init__ (2 # 1) [] ([zero_four] ++ [scalar_form (2 # 1) E2]) [] =
  Ok (mkQuasi (mkForm (2 # 1)%Q [] (fourier_expansion (scalar_form (2 # 1) E2)) [])
              None).
Proof.
assert (Hz : Forall (fun x : WeilRepModularForm => form_bool x = false) [zero_four])
  by (constructor; [ reflexivity | constructor ]).
split; [ exact Hz | ].
destruct (init_collapses (2 # 1)%Q [] ([] : @WeilRep lattice) [zero_four]
            (scalar_form (2 # 1) E2) Hz)
  as (_ & E & _).
exact E.
Defined.

(** X3 at [e2]. *)
Lemma init_rebuilds_witness :
  Quasi.__init__ (2 # 1) [] [scalar_form 0 minus12; scalar_form (2 # 1) E2] []
  = Ok e2 /\
  Quasi.__init__ (weight (q_form e2)) (gram_matrix (q_form e2)) (Quasi._terms e2)
                 (weilrep (q_form e2)) = Ok e2.
Proof.
split; [ exact e2_constructed | ].
exact (init_rebuilds _ _ _ _ e2 e2_constructed).
Defined.

(** X4 at [e2]. *)
Lemma neg_terms_witness :
  well_formed e2 /\
  exists h, Quasi.__neg__ e2 = Ok h /\ Quasi.depth h = Quasi.depth e2.
Proof.
split; [ exact e2_well_formed | ].
destruct (neg_terms e2 reference_neg_truth e2_well_formed) as (h & Hh & Hd & _).
exists h. split; [ exact Hh | exact Hd ].
Defined.

(** X5 at [e2 * 2]. *)
Lemma scalar_multiple_witness :
  well_formed e2 /\ ~ ((2 # 1) == 0)%Q /\
  exists h, Quasi.__mul__ e2 (Scalar (2 # 1)) = Ok h /\
            Quasi.depth h = Quasi.depth e2.
Proof.
assert (Hc : ~ ((2 # 1) == 0)%Q) by (unfold Qeq; cbn; lia).
split; [ exact e2_well_formed | ]. split; [ exact Hc | ].
destruct (scalar_multiple e2 (2 # 1)%Q reference_smul_truth reference_smul_zero
                          e2_well_formed)
  as (h & Hh & _ & _ & _ & Hnz & _).
exists h. split; [ exact Hh | apply (Hnz Hc) ].
Defined.

(** X6 at [e2 / 2]. *)
Lemma scalar_quotient_witness :
  well_formed e2 /\ ~ ((2 # 1) == 0)%Q /\
  exists h, Quasi.__div__ e2 (2 # 1) = Ok h /\ Quasi.depth h = Quasi.depth e2.
Proof.
assert (Hc : ~ ((2 # 1) == 0)%Q) by (unfold Qeq; cbn; lia).
split; [ exact e2_well_formed | ]. split; [ exact Hc | ].
destruct (scalar_quotient e2 (2 # 1)%Q reference_div_truth e2_well_formed Hc)
  as (h & Hh & Hd & _).
exists h. split; [ exact Hh | exact Hd ].
Defined.

(** X7 at [e2 + plain_two], of depths 1 and 0. *)
Lemma add_aligned_witness :
  well_formed e2 /\ well_formed plain_two /\
  form_bool (q_form plain_two) = true /\
  gram_matrix (q_form e2) = gram_matrix (q_form plain_two) /\
  (weight (q_form e2) == weight (q_form plain_two))%Q /\
  exists h, Quasi.__add__ e2 (Form plain_two) = Ok h /\ Quasi.depth h = 1.
Proof.
assert (Ht : form_bool (q_form plain_two) = true) by reflexivity.
assert (HS : gram_matrix (q_form e2) = gram_matrix (q_form plain_two)) by reflexivity.
assert (Hk : (weight (q_form e2) == weight (q_form plain_two))%Q) by reflexivity.
split; [ exact e2_well_formed | ]. split; [ exact plain_two_well_formed | ].
split; [ exact Ht | ]. split; [ exact HS | ]. split; [ exact Hk | ].
destruct (add_aligned e2 plain_two e2_well_formed plain_two_well_formed Ht HS Hk)
  as (X & h & Hh & _ & _ & _ & _ & Hd).
exists h. split; [ exact Hh | ]. apply Hd. cbn. lia.
Defined.

(** X8 at [e2 - plain_two]. *)
Lemma sub_aligned_witness :
  well_formed e2 /\ well_formed plain_two /\
  form_bool (q_form plain_two) = true /\
  gram_matrix (q_form e2) = gram_matrix (q_form plain_two) /\
  (weight (q_form e2) == weight (q_form plain_two))%Q /\
  exists h, Quasi.__sub__ e2 (Form plain_two) = Ok h /\ Quasi.depth h = 1.
Proof.
assert (Ht : form_bool (q_form plain_two) = true) by reflexivity.
assert (HS : gram_matrix (q_form e2) = gram_matrix (q_form plain_two)) by reflexivity.
assert (Hk : (weight (q_form e2) == weight (q_form plain_two))%Q) by reflexivity.
split; [ exact e2_well_formed | ]. split; [ exact plain_two_well_formed | ].
split; [ exact Ht | ]. split; [ exact HS | ]. split; [ exact Hk | ].
destruct (sub_aligned e2 plain_two reference_neg_truth e2_well_formed
                      plain_two_well_formed Ht HS Hk)
  as (X & h & Hh & _ & _ & _ & _ & Hd).
exists h. split; [ exact Hh | ]. apply Hd. cbn. lia.
Defined.

(** X9 at [e2 - e2]. *)
Lemma sub_self_witness :
  well_formed e2 /\ form_bool (q_form e2) = true /\
  exists h, Quasi.__sub__ e2 (Form e2) = Ok h /\ Quasi.depth h = 0.
Proof.
assert (Ht : form_bool (q_form e2) = true) by reflexivity.
split; [ exact e2_well_formed | ]. split; [ exact Ht | ].
destruct (sub_self e2 reference_sub_self e2_well_formed Ht) as (h & Hh & Hd & _).
exists h. split; [ exact Hh | exact Hd ].
Defined.

(** X10 at [e2 ** 3]. *)
Lemma pow_weight_depth_witness :
  well_formed e2 /\ (1 <= 3)%Z /\
  exists g, Quasi.__pow__ e2 3 = Ok g /\
            (weight (q_form g) == inject_Z 3 * weight (q_form e2))%Q /\
            Quasi.depth g <= Z.to_nat 3 * Quasi.depth e2.
Proof.
split; [ exact e2_well_formed | ]. split; [ lia | ].
destruct (pow_weight_depth e2 3 e2_well_formed ltac:(lia)) as (g & Hg & _ & Hw & Hd).
exists g. split; [ exact Hg | ]. split; [ exact Hw | exact Hd ].
Defined.

(** X11 at [e2], of weight 2 and depth 1. *)
Lemma derivative_raises_depth_witness :
  well_formed e2 /\ fourier_expansion (q_form e2) <> [] /\
  ~ (weight (q_form e2) == inject_Z (Z.of_nat (Quasi.depth e2)))%Q /\
  exists g, Quasi.derivative e2 = Ok g /\ Quasi.depth g = Quasi.depth e2 + 1.
Proof.
assert (Hk : ~ (weight (q_form e2) == inject_Z (Z.of_nat (Quasi.depth e2)))%Q)
  by (unfold Qeq; cbn; lia).
split; [ exact e2_well_formed | ]. split; [ discriminate | ]. split; [ exact Hk | ].
destruct (derivative_raises_depth e2 reference_smul_truth e2_well_formed
            ltac:(discriminate) Hk ltac:(cbn; lia))
  as (g & Hg & Hd & _).
exists g. split; [ exact Hg | exact Hd ].
Defined.

(** X12 at the form of depth 3. *)
Lemma completion_entry_depths_witness :
  well_formed depth_three /\
  exists h, AlmostHolomorphic.completion depth_three = Ok h /\
            List.length (ah_list h) = 3 + 1.
Proof.
split; [ exact depth_three_well_formed | ].
destruct (completion_entry_depths reference_smul_truth reference_div_truth
                                  depth_three depth_three_well_formed)
  as (h & Hh & _ & Hl & _).
exists h. split; [ exact Hh | exact Hl ].
Defined.

(** X13 at the completion of [e2]. *)
Lemma lazy_arithmetic_witness :
  AlmostHolomorphic.completion e2 = Ok e2_completed /\
  AlmostHolomorphic.derivative e2_completed =
  (z <- Quasi.derivative e2 ;; AlmostHolomorphic.completion z) /\
  AlmostHolomorphic.__add__ e2_completed (LCompletion e2_completed) =
  (z <- Quasi.__add__ e2 (Form e2) ;; AlmostHolomorphic.completion z).
Proof.
assert (Hc : AlmostHolomorphic.completion e2 = Ok e2_completed)
  by (vm_compute; reflexivity).
split; [ exact Hc | ].
destruct (lazy_arithmetic e2 e2 e2_completed e2_completed Hc Hc)
  as (_ & _ & _ & Hd & _ & Ha & _).
split; [ exact Hd | exact Ha ].
Defined.

(** X14 at the completion of [e2]. *)
Lemma repr_closed_form_witness :
  ah_list e2_completed = [e2; mkQuasi (scalar_form (-3 # 1) minus12) None] /\
  exists v, __repr__ (fun _ => "x"%string) None e2_completed = Ok (v, Some v) /\
            __repr__ (fun _ => "x"%string) (Some v) e2_completed = Ok (v, Some v).
Proof.
split; [ reflexivity | ].
destruct (repr_closed_form (fun _ => "x"%string) e2_completed) as (Hfresh & Hcached & _).
eexists. split; [ exact (Hfresh _ _ eq_refl) | apply Hcached ].
Defined.

(** X15 at [E2] with offset [-1/4] and index 5. *)
Lemma derivative_extends_precision_witness :
  series_wf E2 /\ is_zero E2 = false /\
  (prec E2 <= 5 < prec E2 - Qfloor (-1 # 4))%Z /\
  getitem E2 5 = None /\ getitem (a (-1 # 4) E2) 5 = Some 0%Q.
Proof.
assert (Hwf : series_wf E2) by (unfold series_wf; cbn; lia).
assert (Hz : is_zero E2 = false) by reflexivity.
assert (Hn : (prec E2 <= 5 < prec E2 - Qfloor (-1 # 4))%Z) by (cbn; lia).
split; [ exact Hwf | ]. split; [ exact Hz | ]. split; [ exact Hn | ].
destruct (derivative_extends_precision (-1 # 4) E2 5 Hwf Hz Hn) as (Hf & Ha & _).
split; [ exact Hf | exact Ha ].
Defined.

End FurtherInstances.
